(** * AppGitHubDossie: repository tree walker, dossier assembler, PDF export

    A shallow embedding of the three request handlers of the repository
    and the properties their specification states about them.

    - [TreeRoute]  : app/api/repos/[owner]/[name]/tree/route.ts
    - [Markdown]   : lib/dossier/markdown.ts
    - [PdfRoute]   : app/api/export/pdf/route.ts

    JavaScript strings are modelled by [string], in UTF-8.  Every character
    the code inspects ("/", ".", "|", the line feed, the classes of the
    regular expressions) is ASCII, and UTF-8 spells every other character
    with bytes above 127, so splitting and replacing give what they give on
    UTF-16 code units.  The order of the code units is not quite the order
    of the bytes, see [Markdown.defaultCompare].  What depends on the host
    (collation, case mapping, dates) is a parameter, see [Markdown.Host]. *)

From Stdlib Require Import ZArith List String Ascii Bool Lia DecimalString.
From Stdlib Require Import Permutation Sorted OrderedTypeEx.
Import ListNotations.

Set Warnings "-register-all".

Local Open Scope Z_scope.
Local Open Scope list_scope.

Infix "+++" := String.append (right associativity, at level 60).

(** ** Values shared by the handlers *)

Module Js.

(** An [Error] object: its [message] and, for the request errors of the
    GitHub client, the HTTP [status] it carries. *)
Record JsError : Type := mkError {
  err_status : option Z;
  err_message : string
}.

(** [new Error(message)] *)
Definition newError (message : string) : JsError := mkError None message.

(** The result of an awaited call: a value, or a thrown error. *)
Inductive Outcome (A : Type) : Type :=
| Ok (a : A)
| Throw (e : JsError).
Arguments Ok {A} a.
Arguments Throw {A} e.

(** Modelled from the spec: [getErrorMessage] of "@/app/_ utils/errors" is
    not part of the sources at hand; the spec says failures are "normalized
    to their message", so it returns the [message] of the error. *)
Definition getErrorMessage (e : JsError) : string := err_message e.

(** [xs.join(sep)] *)
Fixpoint join (sep : string) (xs : list string) : string :=
  match xs with
  | [] => EmptyString
  | [x] => x
  | x :: rest => x +++ sep +++ join sep rest
  end.

End Js.

(** ** The tree endpoint *)

Module TreeRoute.
Import Js.

(** [type Node = { path: string; type: "file" | "dir"; size?: number }] *)
Inductive NodeType : Type := file | dir.

Record Node : Type := mkNode {
  path : string;
  type : NodeType;
  size : option Z
}.

(** One entry of a directory listing as the GitHub client returns it; its
    [type] is a free string ("file", "dir", "symlink", "submodule"). *)
Record Entry : Type := mkEntry {
  e_type : string;
  e_path : string;
  e_size : option Z
}.

(** [data] of [octokit.repos.getContent]: an array for a directory, a
    single object otherwise. *)
Inductive Content : Type :=
| ContentArray (entries : list Entry)
| ContentSingle (entry : Entry).

(** The client: [getContent owner repo path]. *)
Record Octokit : Type := mkOctokit {
  getContent : string -> string -> string -> Outcome Content
}.

Definition MAX_DEPTH : Z := 6.

(** [Array.isArray(data) ? data : [data]] *)
Definition entriesOf (data : Content) : list Entry :=
  match data with
  | ContentArray es => es
  | ContentSingle e => [e]
  end.

(** The [catch] block of [walk]: the error is replaced by a fresh [Error]
    whose message is "Not Found" for status 404 and [getErrorMessage err]
    otherwise. *)
Definition normalize (err : JsError) : JsError :=
  newError (if match err_status err with
               | Some status => status =? 404
               | None => false
               end
            then "Not Found"%string
            else getErrorMessage err).

Definition catchNormalize {A : Type} (r : option (Outcome A)) : option (Outcome A) :=
  match r with
  | Some (Throw err) => Some (Throw (normalize err))
  | other => other
  end.

(** The [for (const e of entries)] loop of [walk]; [recur path] is the
    recursive call [walk(owner, repo, path, depth + 1)] and [out] the array
    the loop pushes to. *)
Fixpoint walkEntries (recur : string -> option (Outcome (list Node)))
  (entries : list Entry) (out : list Node) : option (Outcome (list Node)) :=
  match entries with
  | [] => Some (Ok out)
  | e :: rest =>
    if String.eqb (e_type e) "dir" then
      match recur (e_path e) with
      | None => None
      | Some (Throw err) => Some (Throw err)
      | Some (Ok sub) =>
        walkEntries recur rest ((out ++ [mkNode (e_path e) dir None]) ++ sub)
      end
    else if String.eqb (e_type e) "file" then
      walkEntries recur rest (out ++ [mkNode (e_path e) file (e_size e)])
    else walkEntries recur rest out
  end.

Section Walk.

(** [getOctokitForUser()] resolves to a client or throws (missing or
    invalid credential). *)
Variable getOctokitForUser : Outcome Octokit.

(** [walk].  The recursion is on [fuel]; [None] means the fuel ran out,
    which [fuelFor depth] units exclude. *)
Fixpoint walk_fuel (fuel : nat) (owner repo path : string) (depth : Z)
  : option (Outcome (list Node)) :=
  match fuel with
  | O => None
  | S fuel' =>
    if MAX_DEPTH <? depth then Some (Ok [])
    else
      match getOctokitForUser with
      | Throw err => Some (Throw err)
      | Ok octokit =>
        catchNormalize
          match getContent octokit owner repo path with
          | Throw err => Some (Throw err)
          | Ok data =>
            walkEntries (fun p => walk_fuel fuel' owner repo p (depth + 1))
                        (entriesOf data) []
          end
      end
  end.

(** Fuel for a call at [depth]. *)
Definition fuelFor (depth : Z) : nat := S (Z.to_nat (MAX_DEPTH + 1 - depth)).

(** [type: "json"] bodies carry the node list, text bodies the message. *)
Inductive Body : Type :=
| BodyJson (nodes : list Node)
| BodyText (text : string).

Record Response : Type := mkResponse {
  status : Z;
  body : Body
}.

(** The status the handler picks for a message. *)
Definition statusOf (msg : string) : Z :=
  if (String.eqb msg "Unauthorized" || String.eqb msg "No GitHub token")%bool then 401
  else if String.eqb msg "Not Found" then 404
  else 502.

(** [GET]: [params.owner], [params.name]. *)
Definition GET (owner name : string) : option Response :=
  match walk_fuel (fuelFor 0) owner name "" 0 with
  | None => None
  | Some (Ok nodes) => Some (mkResponse 200 (BodyJson nodes))
  | Some (Throw e) =>
    let msg := getErrorMessage e in
    Some (mkResponse (statusOf msg) (BodyText msg))
  end.

End Walk.

End TreeRoute.

(** ** The dossier assembler *)

Module Markdown.
Import Js.

(** *** Built-ins of the host *)

(** What the assembler takes from the JavaScript host: the collation of
    [String.prototype.localeCompare], the case mapping of [toLowerCase], and
    [Date] with its locale rendering.  They are fixed for a run and are not
    part of the repository. *)
Class Host : Type := {
  localeCompare : string -> string -> Z;
  toLowerCase : string -> string;
  JsDate : Type;
  newDate : string -> JsDate;
  toLocaleString : JsDate -> string
}.

Definition nl : string := String (ascii_of_nat 10) EmptyString.
Definition dq : string := String (ascii_of_nat 34) EmptyString.
Definition bq3 : string := "```".

(** [`${n}`] for an integral number. *)
Definition numberToString (n : Z) : string :=
  NilZero.string_of_int (Z.to_int n).

(** [s || d] on strings. *)
Definition orElse (s d : string) : string :=
  match s with
  | EmptyString => d
  | _ => s
  end.

(** [s.split(sep)] for a one-character separator; never empty. *)
Fixpoint split (sep : ascii) (s : string) : list string :=
  match s with
  | EmptyString => [EmptyString]
  | String c rest =>
    if Ascii.eqb c sep then EmptyString :: split sep rest
    else match split sep rest with
         | [] => [String c EmptyString]
         | piece :: pieces => String c piece :: pieces
         end
  end.

(** [Boolean(s)] for a string. *)
Definition nonEmpty (s : string) : bool :=
  match s with
  | EmptyString => false
  | _ => true
  end.

(** [s.replace(/[C]+/g, by)]: the matcher looks for the next character of
    the class [C] ([replaceRuns]), consumes the longest run of such
    characters ([skipRun]), emits [by] once for it, and goes on after it. *)
Fixpoint replaceRuns (inClass : ascii -> bool) (by_ : string) (s : string) : string :=
  match s with
  | EmptyString => EmptyString
  | String c rest =>
    if inClass c then by_ +++ skipRun inClass by_ rest
    else String c (replaceRuns inClass by_ rest)
  end
with skipRun (inClass : ascii -> bool) (by_ : string) (s : string) : string :=
  match s with
  | EmptyString => EmptyString
  | String c rest =>
    if inClass c then skipRun inClass by_ rest
    else String c (replaceRuns inClass by_ rest)
  end.

(** [s.replace(/c/g, by)] for a single character [c]. *)
Fixpoint replaceChar (c : ascii) (by_ : string) (s : string) : string :=
  match s with
  | EmptyString => EmptyString
  | String d rest =>
    if Ascii.eqb d c then by_ +++ replaceChar c by_ rest
    else String d (replaceChar c by_ rest)
  end.

Definition between (lo hi c : ascii) : bool :=
  (nat_of_ascii lo <=? nat_of_ascii c)%nat && (nat_of_ascii c <=? nat_of_ascii hi)%nat.

Definition isLower (c : ascii) : bool := between "a" "z" c.
Definition isUpper (c : ascii) : bool := between "A" "Z" c.
Definition isDigit (c : ascii) : bool := between "0" "9" c.

(** [xs.sort(cmp)]: the sort is stable, and for a consistent comparator
    every stable sort returns the same array; insertion from the right is
    one of them. *)
Section Sort.
Context {A : Type} (cmp : A -> A -> Z).

Fixpoint insertBy (x : A) (l : list A) : list A :=
  match l with
  | [] => [x]
  | y :: l' => if cmp x y <=? 0 then x :: y :: l' else y :: insertBy x l'
  end.

Definition sortBy (l : list A) : list A := fold_right insertBy [] l.

End Sort.

(** [xs.sort()] without argument orders strings by their UTF-16 code
    units.  That is the order of the code points, which is the order of
    the UTF-8 bytes, but for one thing: the characters above U+FFFF are
    surrogate pairs (D800..DFFF) and come before U+E000..U+FFFF.  In
    UTF-8 the characters U+E000..U+FFFF are those that begin with the
    bytes EE and EF, the characters above U+FFFF begin with F0..F4, and
    the bytes FE and FF do not occur.  [sortKey] exchanges EE with FE and
    EF with FF, which puts the former after the latter and moves nothing
    else; [MarkdownProofs.defaultCompare_utf16] shows that comparing the
    bytes so keyed is comparing the UTF-16 code units. *)
Definition sortKey (c : ascii) : ascii :=
  if Ascii.eqb c (ascii_of_nat 238) then ascii_of_nat 254
  else if Ascii.eqb c (ascii_of_nat 239) then ascii_of_nat 255
  else if Ascii.eqb c (ascii_of_nat 254) then ascii_of_nat 238
  else if Ascii.eqb c (ascii_of_nat 255) then ascii_of_nat 239
  else c.

Fixpoint sortKeys (s : string) : string :=
  match s with
  | EmptyString => EmptyString
  | String c rest => String (sortKey c) (sortKeys rest)
  end.

(** The comparator of [xs.sort()] without argument: code units, ascending. *)
Definition defaultCompare (a b : string) : Z :=
  match String.compare (sortKeys a) (sortKeys b) with
  | Lt => -1
  | Eq => 0
  | Gt => 1
  end.

(** *** [Map<string, V>]: keys in insertion order, no key twice *)

Section JsMap.
Context {V : Type}.

Fixpoint mapHas (k : string) (m : list (string * V)) : bool :=
  match m with
  | [] => false
  | (k', _) :: m' => String.eqb k' k || mapHas k m'
  end.

Fixpoint mapGet (k : string) (m : list (string * V)) : option V :=
  match m with
  | [] => None
  | (k', v) :: m' => if String.eqb k' k then Some v else mapGet k m'
  end.

(** [m.set(k, v)]: an existing key keeps its place, a new one goes last. *)
Fixpoint mapSet (k : string) (v : V) (m : list (string * V)) : list (string * V) :=
  match m with
  | [] => [(k, v)]
  | (k', v') :: m' =>
    if String.eqb k' k then (k, v) :: m' else (k', v') :: mapSet k v m'
  end.

End JsMap.

(** *** The ASCII tree *)

(** [type TreeNode = { children: Map<string, TreeNode> }] *)
Inductive TreeNode : Type :=
| mkTree (children : list (string * TreeNode)).

Definition children (t : TreeNode) : list (string * TreeNode) :=
  match t with
  | mkTree ch => ch
  end.

Definition emptyTree : TreeNode := mkTree [].

(** The inner loop of the trie construction.  [cur] walks down the trie and
    the nodes are updated in place; here the updated child is written back
    under its key, which keeps its position in the map. *)
Fixpoint insertParts (parts : list string) (cur : TreeNode) : TreeNode :=
  match parts with
  | [] => cur
  | part :: rest =>
    let children1 :=
      if mapHas part (children cur) then children cur
      else mapSet part emptyTree (children cur) in
    match mapGet part children1 with
    | Some child => mkTree (mapSet part (insertParts rest child) children1)
    | None => mkTree children1
    end
  end.

(** [p.split("/").filter(Boolean)] *)
Definition partsOf (p : string) : list string :=
  filter nonEmpty (split "/" p).

(** The outer loop: the trie of all paths. *)
Definition buildTrie (paths : list string) : TreeNode :=
  fold_left (fun root p => insertParts (partsOf p) root) paths emptyTree.

Fixpoint height (t : TreeNode) : nat :=
  match t with
  | mkTree ch => fold_right (fun e h => Nat.max (S (height (snd e))) h) O ch
  end.

Definition branchLast : string := "┗".
Definition branchMid : string := "┣".

Section Print.
Context `{Host}.

(** The comparator given to [sort]: entries compared by name. *)
Definition byName {V : Type} (a b : string * V) : Z :=
  localeCompare (fst a) (fst b).

(** [entries.forEach((entry, idx) => ...)] where the callback appends lines. *)
Fixpoint forEachIdx {V : Type} (f : V -> nat -> option (list string))
  (idx : nat) (entries : list V) : option (list string) :=
  match entries with
  | [] => Some []
  | e :: rest =>
    match f e idx with
    | None => None
    | Some here =>
      match forEachIdx f (S idx) rest with
      | None => None
      | Some more => Some (here ++ more)
      end
    end
  end.

(** The callback of [entries.forEach] in [print]; [recur] is the recursive
    call of [print]. *)
Definition printEntry (recur : TreeNode -> string -> option (list string))
  (prefix : string) (entries : list (string * TreeNode))
  (entry : string * TreeNode) (idx : nat) : option (list string) :=
  let name := fst entry in
  let child := snd entry in
  let isLast := Nat.eqb idx (List.length entries - 1) in
  let branch := if isLast then branchLast else branchMid in
  let line := prefix +++ branch +++ " " +++ name in
  let nextPrefix := (prefix +++ (if isLast then "  " else "┃ ")) +++ " " in
  if (0 <? List.length (children child))%nat then
    match recur child nextPrefix with
    | None => None
    | Some below => Some (line :: below)
    end
  else Some [line].

(** [print(node, prefix)]; the result is the lines it pushes, in order.
    [None] means the fuel ran out. *)
Fixpoint print_fuel (fuel : nat) (node : TreeNode) (prefix : string)
  : option (list string) :=
  match fuel with
  | O => None
  | S fuel' =>
    let entries := sortBy byName (children node) in
    forEachIdx (printEntry (print_fuel fuel') prefix entries) O entries
  end.

(** [buildAsciiTree(paths)] *)
Definition buildAsciiTree (paths : list string) : option string :=
  match paths with
  | [] => Some EmptyString
  | _ =>
    let root := buildTrie paths in
    match print_fuel (S (height root)) root EmptyString with
    | None => None
    | Some lines => Some (join nl lines)
    end
  end.

End Print.

(** *** Helpers of the document *)

(** Concatenation of the pieces of a template literal. *)
Definition cat (pieces : list string) : string :=
  fold_right String.append EmptyString pieces.

(** [xs.map((x, i) => f(x, i))] *)
Fixpoint mapIdx {A B : Type} (f : A -> nat -> B) (idx : nat) (xs : list A) : list B :=
  match xs with
  | [] => []
  | x :: rest => f x idx :: mapIdx f (S idx) rest
  end.

(** [xs.pop()] on a fresh array: its last element. *)
Fixpoint lastOf (xs : list string) : option string :=
  match xs with
  | [] => None
  | [x] => Some x
  | _ :: rest => lastOf rest
  end.

(** [s.slice(0, n)] *)
Fixpoint sliceTo (n : nat) (s : string) : string :=
  match n, s with
  | S n', String c rest => String c (sliceTo n' rest)
  | _, _ => EmptyString
  end.

(** [/[^a-z0-9]/] *)
Definition notLowerAlnum (c : ascii) : bool := negb (isLower c || isDigit c).

(** [`<a id="${id}"></a>`] *)
Definition anchor (id : string) : string :=
  cat ["<a id="; dq; id; dq; "></a>"]%string.

(** [fence(lang, content)] *)
Definition fence (lang : string) (content : string) : string :=
  let tag := if nonEmpty lang then lang else EmptyString in
  join nl [bq3 +++ tag; content; bq3].

(** Modelled from the spec: the type [CommitReview] is declared in
    "@/app/_lib/dossier/commitAnalysis", which is not part of the sources at
    hand.  The fields are those [renderCommits] reads, which are those the
    data model of the spec lists: "sha, message, timestamp, author-facing
    URL, added/removed line counts, changed-file count, and a list of
    flags". *)
Record CommitReview : Type := mkCommit {
  sha : string;
  message : string;
  date : string;
  url : string;
  additions : Z;
  deletions : Z;
  filesChanged : Z;
  flags : list string
}.

Record DossierMeta : Type := mkMeta {
  owner : string;
  repo : string;
  description : option string;
  defaultBranch : option string;
  languages : option (list string);
  techStackExtra : option (list string)
}.

Record FileOut : Type := mkFile {
  path : string;
  content : string
}.

(** [Record<string, string>] is given by its [Object.entries]. *)
Record PackageSummary : Type := mkPackage {
  name : option string;
  version : option string;
  dependencies : option (list (string * string));
  devDependencies : option (list (string * string))
}.

(** [x ?? d] *)
Definition orDefault {A : Type} (x : option A) (d : A) : A :=
  match x with
  | Some v => v
  | None => d
  end.

(** [renderDoubtsMerged()] *)
Definition renderDoubtsMerged : string :=
  let items := [
    "Melhorar organização dos arquivos e remover duplicações.";
    "Refatorar componentes críticos e padronizar padrões.";
    "Otimizações de performance (lazy, cache, memoização).";
    "Garantir responsividade total (mobile-first).";
    "Ajustar chart de transações (corte/overflow).";
    "Criar um 2º plano de assinatura e regras.";
    "Criar design secundário para assinatura específica.";
    "Exibir pop-ups/notificações de atualização.";
    "Trazer saldo do mês anterior no dashboard.";
    "Selecionar período para feedback de IA.";
    "Reforçar boas práticas: commits granulares e descritivos."
  ]%string in
  join nl (map (fun i => "- " +++ i) items).

Section Document.
Context `{Host}.

(** [slug(s)] *)
Definition slug (s : string) : string :=
  replaceRuns notLowerAlnum "-" (toLowerCase s).

(** [guessLang(path)] *)
Definition guessLang (path : string) : string :=
  let ext := match lastOf (split "." path) with
             | Some e => toLowerCase e
             | None => EmptyString
             end in
  if String.eqb ext "ts" || String.eqb ext "mts" || String.eqb ext "cts" then "ts"
  else if String.eqb ext "tsx" then "tsx"
  else if String.eqb ext "js" || String.eqb ext "mjs" || String.eqb ext "cjs" then "js"
  else if String.eqb ext "jsx" then "jsx"
  else if String.eqb ext "json" then "json"
  else if String.eqb ext "md" || String.eqb ext "markdown" then "md"
  else if String.eqb ext "yml" || String.eqb ext "yaml" then "yaml"
  else if String.eqb ext "env" then "dotenv"
  else if String.eqb ext "css" then "css"
  else if String.eqb ext "html" then "html"
  else if String.eqb ext "sql" then "sql"
  else EmptyString.

(** The callback of [commits.map] in [renderCommits]: one table row. *)
Definition commitRow (c : CommitReview) : string :=
  let short := sliceTo 7 (sha c) in
  let flags := orElse (join ", " (flags c)) "—" in
  let delta := cat ["+"; numberToString (additions c); "/-"; numberToString (deletions c)]%string in
  let msg := hd EmptyString (split (ascii_of_nat 10) (replaceChar "|" "\|" (message c))) in
  cat ["| "; toLocaleString (newDate (date c)); " | ["; short; "]("; url c; ") | ";
       msg; " | "; delta; " | "; numberToString (filesChanged c); " | "; flags; " |"]%string.

Definition commitsHeader : string :=
  cat ["| Data | SHA | Mensagem | +/- | Arquivos | Flags |"; nl;
       "|---|---|---|---:|---:|---|"; nl]%string.

(** [renderCommits(commits)] *)
Definition renderCommits (commits : list CommitReview) : string :=
  let rows := join nl (map commitRow commits) in
  commitsHeader +++ rows.

(** [mkTable] of [renderPackageSummary] *)
Definition mkTable (title : string) (entries : list (string * string)) : string :=
  match entries with
  | [] => cat ["**"; title; "**"; nl; nl; "_—_"; nl]%string
  | _ =>
    cat ["**"; title; "**"; nl; nl; "| Pacote | Versão |"; nl; "|---|---|"; nl;
         join nl (map (fun kv => cat ["| "; fst kv; " | "; snd kv; " |"])
                      (sortBy byName entries));
         nl]%string
  end.

(** [renderPackageSummary(pkg)] *)
Definition renderPackageSummary (pkg : option PackageSummary) : string :=
  match pkg with
  | None => EmptyString
  | Some pkg =>
    let deps := orDefault (dependencies pkg) [] in
    let dev := orDefault (devDependencies pkg) [] in
    join (nl +++ nl) [
      cat ["**Nome:** "; orDefault (name pkg) "—"; "  "; nl;
           "**Versão:** "; orDefault (version pkg) "—"]%string;
      mkTable "Dependencies" deps;
      mkTable "DevDependencies" dev
    ]
  end.

(** The callback of [files.map] in [buildDossierMarkdown]. *)
Definition fileSection (f : FileOut) (i : nat) : string :=
  let lang := guessLang (path f) in
  join (nl +++ nl) [
    cat ["### "; numberToString (Z.of_nat i + 1); ". "; path f]%string;
    anchor (slug (path f));
    fence lang (content f);
    EmptyString
  ].

(** The caller's [allPathsFlat] array after the call: [sort()] without
    argument sorts it in place. *)
Definition allPathsFlatAfter (allPathsFlat : option (list string)) : option (list string) :=
  option_map (sortBy defaultCompare) allPathsFlat.

(** [buildDossierMarkdown].  [clock] is the value of [new Date()] when the
    call is made.  [None] only if [print] ran out of fuel. *)
Definition buildDossierMarkdown
  (clock : JsDate)
  (meta : DossierMeta)
  (files : list FileOut)
  (commitsReviewed : option (list CommitReview))
  (allPathsFlat : option (list string))
  (packageJsonSummary : option PackageSummary)
  (envExampleContent : option string) : option string :=
  let now := toLocaleString clock in
  let pathsForTree := sortBy defaultCompare (orDefault allPathsFlat (map path files)) in
  match buildAsciiTree pathsForTree with
  | None => None
  | Some treeText =>
    let filesSections := join nl (mapIdx fileSection O files) in
    let commitsSection :=
      match commitsReviewed with
      | Some (c :: cs) => renderCommits (c :: cs)
      | _ => "_Nenhum commit incluído no recorte._"%string
      end in
    let pkgBlock :=
      match packageJsonSummary with
      | Some pkg => renderPackageSummary (Some pkg)
      | None => "_Não localizado/selecionado._"%string
      end in
    let envBlock :=
      match envExampleContent with
      | Some (String c rest) => fence "dotenv" (String c rest)
      | _ => "_Não localizado/selecionado._"%string
      end in
    let techStack :=
      orDefault (languages meta) [] ++
      ["Next.js 14"; "TypeScript"; "TailwindCSS"]%string ++
      orDefault (techStackExtra meta) [] in
    let doubtsMerged := renderDoubtsMerged in
    Some (cat [
      "# Dossiê do Projeto: "; owner meta; "/"; repo meta; nl;
      nl;
      "**Gerado em:** "; now; nl;
      nl;
      "> **Descrição:** "; orDefault (description meta) "—"; nl;
      ">"; nl;
      "> **Branch padrão:** "; orDefault (defaultBranch meta) "main"; nl;
      ">"; nl;
      "> **Linguagens/Tecnologias:** "; orElse (join ", " techStack) "—"; nl;
      nl;
      "---"; nl;
      nl;
      "## Sumário"; nl;
      nl;
      "- [1. Dados Gerais](#dados-gerais)"; nl;
      "- [2. Estrutura de Pastas e Arquivos](#estrutura-de-pastas-e-arquivos)"; nl;
      "- [3. Códigos Selecionados](#codigos-selecionados)"; nl;
      "- [4. Histórico de Commits](#historico-de-commits)"; nl;
      "- [5. Tecnologias Utilizadas](#tecnologias-utilizadas)"; nl;
      "- [6. Variáveis de Ambiente (.env.example)](#variaveis-de-ambiente-envexample)"; nl;
      "- [7. Dependências (package.json)](#dependencias-packagejson)"; nl;
      "- [8. Dúvidas, Pontos Críticos ou Melhorias](#duvidas-pontos-criticos-ou-melhorias)"; nl;
      nl;
      "---"; nl;
      nl;
      "## 1. Dados Gerais  "; anchor "dados-gerais"; nl;
      nl;
      "- Repositório: **"; owner meta; "/"; repo meta; "**"; nl;
      "- Descrição: "; orDefault (description meta) "—"; nl;
      "- Branch padrão: "; orDefault (defaultBranch meta) "main"; nl;
      nl;
      "---"; nl;
      nl;
      "## 2. Estrutura de Pastas e Arquivos  "; anchor "estrutura-de-pastas-e-arquivos"; nl;
      nl;
      fence "text" (orElse treeText "—"); nl;
      nl;
      "---"; nl;
      nl;
      "## 3. Códigos Selecionados  "; anchor "codigos-selecionados"; nl;
      nl;
      orElse filesSections "_Nenhum arquivo selecionado._"; nl;
      nl;
      "---"; nl;
      nl;
      "## 4. Histórico de Commits  "; anchor "historico-de-commits"; nl;
      nl;
      commitsSection; nl;
      nl;
      "---"; nl;
      nl;
      "## 5. Tecnologias Utilizadas  "; anchor "tecnologias-utilizadas"; nl;
      nl;
      "- "; join (nl +++ "- ") techStack; nl;
      nl;
      "---"; nl;
      nl;
      "## 6. Variáveis de Ambiente (.env.example)  "; anchor "variaveis-de-ambiente-envexample"; nl;
      nl;
      envBlock; nl;
      nl;
      "---"; nl;
      nl;
      "## 7. Dependências (package.json)  "; anchor "dependencias-packagejson"; nl;
      nl;
      pkgBlock; nl;
      nl;
      "---"; nl;
      nl;
      "## 8. Dúvidas, Pontos Críticos ou Melhorias  "; anchor "duvidas-pontos-criticos-ou-melhorias"; nl;
      nl;
      doubtsMerged; nl
    ]%string)
  end.

End Document.

End Markdown.

(** ** The PDF endpoint *)

Module PdfRoute.
Import Js.
Import Markdown (nl, dq, cat, replaceRuns, skipRun, isLower, isUpper, isDigit).

(** The value [await req.json()] resolves to.  Only whether a number is
    zero matters to the handler, so numbers are integers here. *)
Inductive JSON : Type :=
| JNull
| JBool (b : bool)
| JNumber (n : Z)
| JString (s : string)
| JArray (items : list JSON)
| JObject (members : list (string * JSON)).

(** [await req.json()]: rejects when the body is not a JSON text (a body of
    length zero is not one), resolves to the parsed value otherwise. *)
Definition Request : Type := Outcome JSON.

(** [v[key]] for the value of a JSON text and a key that is not inherited
    from a prototype ("markdown", "title"): [None] is [undefined]. *)
Fixpoint lookup (key : string) (members : list (string * JSON)) : option JSON :=
  match members with
  | [] => None
  | (k, v) :: rest => if String.eqb k key then Some v else lookup key rest
  end.

Definition getProp (v : JSON) (key : string) : option JSON :=
  match v with
  | JObject members => lookup key members
  | _ => None
  end.

(** [!v] is [negb (truthy v)]. *)
Definition truthy (v : option JSON) : bool :=
  match v with
  | None => false
  | Some JNull => false
  | Some (JBool b) => b
  | Some (JNumber n) => negb (n =? 0)
  | Some (JString s) => negb (String.eqb s EmptyString)
  | Some (JArray _) => true
  | Some (JObject _) => true
  end.

(** The [TypeError]s of the engine; the texts are those of V8. *)
Definition destructureNull : JsError :=
  newError "Cannot destructure property 'markdown' of '(intermediate value)' as it is null.".
Definition replaceNotFunction : JsError :=
  newError "s.replace is not a function".
Definition replaceOfNull : JsError :=
  newError "Cannot read properties of null (reading 'replace')".

(** The error of [s.replace(...)] for an [s] that is not a string: [null]
    has no properties to read, every other value has no [replace] that
    could be called. *)
Definition replaceError (s : JSON) : JsError :=
  match s with
  | JNull => replaceOfNull
  | _ => replaceNotFunction
  end.

(** [const { markdown, title = "dossie" } = value] *)
Definition destructure (value : JSON) : Outcome (option JSON * JSON) :=
  match value with
  | JNull => Throw destructureNull
  | _ =>
    Ok (getProp value "markdown",
        match getProp value "title" with
        | Some t => t
        | None => JString "dossie"
        end)
  end.

(** [escapeHtml(s)] on a string *)
Fixpoint escapeHtmlString (s : string) : string :=
  match s with
  | EmptyString => EmptyString
  | String c rest =>
    (if Ascii.eqb c "&" then "&amp;"
     else if Ascii.eqb c "<" then "&lt;"
     else if Ascii.eqb c ">" then "&gt;"
     else if Ascii.eqb c (ascii_of_nat 34) then "&quot;"
     else if Ascii.eqb c "'" then "&#39;"
     else String c EmptyString) +++ escapeHtmlString rest
  end.

(** [escapeHtml(title)]: [s.replace] exists on strings only. *)
Definition escapeHtml (s : JSON) : Outcome string :=
  match s with
  | JString s => Ok (escapeHtmlString s)
  | _ => Throw (replaceError s)
  end.

(** [/[^a-z0-9_\-\.]/i]: without the [u] flag the case-insensitive class
    [a-z] holds the letters of both cases and nothing above 127. *)
Definition unsafeChar (c : ascii) : bool :=
  negb (isLower c || isUpper c || isDigit c
        || Ascii.eqb c "_" || Ascii.eqb c "-" || Ascii.eqb c ".").

(** [sanitizeFileName(s)] *)
Definition sanitizeFileName (s : string) : string :=
  replaceRuns unsafeChar "_" s.

(** The page shell around the rendered body. *)
Definition pageHtml (title body : string) : string :=
  cat [
    "<!doctype html>"; nl;
    "<html>"; nl;
    "<head>"; nl;
    "<meta charset="; dq; "utf-8"; dq; "/>"; nl;
    "<title>"; title; "</title>"; nl;
    "<style>"; nl;
    "  @page { size: A4; margin: 20mm; }"; nl;
    "  *,*::before,*::after { box-sizing: border-box; }"; nl;
    "  body { font-family: ui-sans-serif, system-ui, -apple-system, "; dq; "Segoe UI"; dq;
      ", Roboto, Arial; color:#111; }"; nl;
    "  h1,h2,h3 { color:#0f172a; margin: 18px 0 10px; }"; nl;
    "  pre { background:#0b1220; color:#e5e7eb; padding:12px; border-radius:8px;"; nl;
    "  white-space:pre; overflow-x:auto; overflow-wrap:normal; word-break:normal; }"; nl;
    "  code { white-space:inherit; }"; nl;
    "  code { font-family: ui-monospace, SFMono-Regular, Menlo, Consolas, "; dq;
      "Liberation Mono"; dq; ", monospace; }"; nl;
    "  a { color:#0369a1; text-decoration:none; } a:hover { text-decoration:underline; }"; nl;
    "  blockquote { border-left:4px solid #e5e7eb; padding-left:10px; color:#374151; }"; nl;
    "  hr { border:none; border-top:1px solid #e5e7eb; margin:24px 0; }"; nl;
    "  table { border-collapse: collapse; width: 100%; }"; nl;
    "  th, td { border: 1px solid #e5e7eb; padding: 6px 8px; font-size: 12px; }"; nl;
    "  th { background: #f8fafc; text-align: left; }"; nl;
    "</style>"; nl;
    "</head>"; nl;
    "<body>"; body; "</body>"; nl;
    "</html>"
  ]%string.

(** What [getBrowserLauncher] resolves to (the [puppeteer] module apart). *)
Record Launcher : Type := mkLauncher {
  executablePath : string;
  args : list string
}.

(** The collaborators of the handler: the Markdown renderer and the
    browser.  Each call resolves or throws. *)
Record Env : Type := mkEnv {
  md_render : option JSON -> Outcome string;
  getBrowserLauncher : Outcome Launcher;
  puppeteer_launch : Launcher -> Outcome unit;
  browser_newPage : Outcome unit;
  page_setContent : string -> Outcome unit;
  page_emulateMediaType : string -> Outcome unit;
  page_pdf : string -> Outcome (list Z);
  browser_close : Outcome unit
}.

(** What the handler does to the outside, in order. *)
Inductive Event : Type :=
| EvRender
| EvGetBrowserLauncher
| EvLaunch (l : Launcher)
| EvNewPage
| EvSetContent (html : string)
| EvEmulateMediaType (media : string)
| EvPdf
| EvClose
| EvConsoleError (msg : string).

(** A computation of the handler: it appends to the trace of events and
    returns or throws. *)
Definition M (A : Type) : Type := list Event -> Outcome A * list Event.

Definition ret {A : Type} (a : A) : M A := fun tr => (Ok a, tr).

Definition bind {A B : Type} (m : M A) (k : A -> M B) : M B :=
  fun tr =>
    match m tr with
    | (Ok a, tr') => k a tr'
    | (Throw e, tr') => (Throw e, tr')
    end.

(** An awaited call that does not touch the outside. *)
Definition lift {A : Type} (r : Outcome A) : M A := fun tr => (r, tr).

(** An awaited call to a collaborator. *)
Definition call {A : Type} (ev : Event) (r : Outcome A) : M A :=
  fun tr => (r, tr ++ [ev]).

Notation "x <- m ;; k" := (bind m (fun x => k))
  (at level 61, m at next level, right associativity).

Inductive Body : Type :=
| BodyText (text : string)
| BodyBlob (mime : string) (bytes : list Z).

Record Response : Type := mkResponse {
  status : Z;
  headers : list (string * string);
  body : Body
}.

(** The [try] block of [POST]. *)
Definition POST_try (env : Env) (req : Request) : M Response :=
  value <- lift req ;;
  fields <- lift (destructure value) ;;
  let markdown := fst fields in
  let title := snd fields in
  if negb (truthy markdown) then ret (mkResponse 400 [] (BodyText "markdown required"))
  else
    body <- call EvRender (md_render env markdown) ;;
    escaped <- lift (escapeHtml title) ;;
    let html := pageHtml escaped body in
    launcher <- call EvGetBrowserLauncher (getBrowserLauncher env) ;;
    _ <- call (EvLaunch launcher) (puppeteer_launch env launcher) ;;
    _ <- call EvNewPage (browser_newPage env) ;;
    _ <- call (EvSetContent html) (page_setContent env html) ;;
    _ <- call (EvEmulateMediaType "screen") (page_emulateMediaType env "screen") ;;
    pdf <- call EvPdf (page_pdf env html) ;;
    _ <- call EvClose (browser_close env) ;;
    match title with
    | JString t =>
      ret (mkResponse 200
             [("Content-Type", "application/pdf");
              ("Content-Disposition",
               cat ["attachment; filename="; dq; sanitizeFileName t; ".pdf"; dq]);
              ("Cache-Control", "no-store")]%string
             (BodyBlob "application/pdf" pdf))
    | _ => lift (Throw (replaceError title))
    end.

(** [POST(req)]: the response and what was done to the outside. *)
Definition POST (env : Env) (req : Request) : Response * list Event :=
  match POST_try env req [] with
  | (Ok response, tr) => (response, tr)
  | (Throw e, tr) =>
    let msg := err_message e in
    (mkResponse 500 [] (BodyText ("PDF error: " +++ msg)), tr ++ [EvConsoleError msg])
  end.

End PdfRoute.

(** ** The browser of the PDF endpoint *)

Module PdfLauncher.
Import Js.

(** Which module drives the browser: "puppeteer" or "puppeteer-core". *)
Inductive PuppeteerModule : Type := Puppeteer | PuppeteerCore.

(** What [getBrowserLauncher] resolves to. *)
Record BrowserLauncher : Type := mkBrowserLauncher {
  puppeteer : PuppeteerModule;
  executablePath : string;
  args : list string
}.

(** The module "@sparticuz/chromium": whether it has the two setters,
    what [await chromium.executablePath()] gives, and [chromium.args]. *)
Record Chromium : Type := mkChromium {
  hasSetHeadlessMode : bool;
  hasSetGraphicsMode : bool;
  chromium_executablePath : Outcome string;
  chromium_args : list string
}.

(** The machine the handler runs on.  [chromium.executablePath()] may
    unpack the browser, so the files that exist after it
    ([existsSyncUnpacked]) are not those that exist before ([existsSync]).
    [env name] is [process.env[name]]. *)
Record System : Type := mkSystem {
  import_puppeteer : Outcome unit;
  puppeteer_executablePath : Outcome string;
  import_puppeteer_core : Outcome unit;
  import_chromium : Outcome Chromium;
  existsSync : string -> bool;
  existsSyncUnpacked : string -> bool;
  env : string -> option string;
  platform : string
}.

Inductive Event : Type :=
| EvImport (module : string)
| EvWarn (msg : string)
| EvSetHeadlessMode (v : bool)
| EvSetGraphicsMode (v : bool)
| EvChromiumExecutablePath.

(** A computation: it appends to the trace and returns or throws. *)
Definition T (A : Type) : Type := list Event -> Outcome A * list Event.

Definition ret {A : Type} (a : A) : T A := fun tr => (Ok a, tr).

Definition throw {A : Type} (e : JsError) : T A := fun tr => (Throw e, tr).

Definition bind {A B : Type} (m : T A) (k : A -> T B) : T B :=
  fun tr =>
    match m tr with
    | (Ok a, tr') => k a tr'
    | (Throw e, tr') => (Throw e, tr')
    end.

(** A call that leaves no trace. *)
Definition lift {A : Type} (r : Outcome A) : T A := fun tr => (r, tr).

(** A call that leaves [ev] in the trace. *)
Definition await {A : Type} (ev : Event) (r : Outcome A) : T A :=
  fun tr => (r, tr ++ [ev]).

(** [try { m } catch (error) { handler(error) }] *)
Definition tryCatch {A : Type} (m : T A) (handler : JsError -> T A) : T A :=
  fun tr =>
    match m tr with
    | (Throw e, tr') => handler e tr'
    | done => done
    end.

(** [if (cond) effect] for an effect without result. *)
Definition when (cond : bool) (ev : Event) : T unit :=
  if cond then await ev (Ok tt) else ret tt.

Notation "x <- m ;; k" := (bind m (fun x => k))
  (at level 61, m at next level, right associativity).

(** [Boolean(s)] for a string. *)
Definition truthyString (s : string) : bool :=
  negb (String.eqb s EmptyString).

(** [Boolean(process.env[name])] *)
Definition envSet (sys : System) (name : string) : bool :=
  match env sys name with
  | Some value => truthyString value
  | None => false
  end.

(** [shouldUseLambdaChromium()] *)
Definition shouldUseLambdaChromium (sys : System) : bool :=
  if negb (String.eqb (platform sys) "linux") then false
  else envSet sys "VERCEL" || envSet sys "AWS_REGION" ||
       envSet sys "AWS_EXECUTION_ENV" || envSet sys "LAMBDA_TASK_ROOT".

(** [resolveLocalPuppeteer()]; [None] is [null]. *)
Definition resolveLocalPuppeteer (sys : System) : T (option BrowserLauncher) :=
  tryCatch
    (_ <- await (EvImport "puppeteer") (import_puppeteer sys) ;;
     executablePath <- lift (puppeteer_executablePath sys) ;;
     if truthyString executablePath && existsSync sys executablePath
     then ret (Some (mkBrowserLauncher Puppeteer executablePath []))
     else ret None)
    (fun error =>
       _ <- await (EvWarn (err_message error)) (Ok tt) ;;
       ret None).

Definition noBrowserFound : JsError :=
  newError "Nenhum navegador foi encontrado. Instale o Chrome ou defina PUPPETEER_EXECUTABLE_PATH.".

Definition noChromiumFound : JsError :=
  newError "Nenhum executável do Chromium foi encontrado para gerar o PDF.".

(** The end of [getBrowserLauncher], reached when neither the local
    package nor the configured path gave a browser: the cloud build. *)
Definition cloudChromium (sys : System) : T BrowserLauncher :=
  if negb (shouldUseLambdaChromium sys) then throw noBrowserFound
  else
    chromium <- await (EvImport "@sparticuz/chromium") (import_chromium sys) ;;
    _ <- when (hasSetHeadlessMode chromium) (EvSetHeadlessMode true) ;;
    _ <- when (hasSetGraphicsMode chromium) (EvSetGraphicsMode false) ;;
    executablePath <- await EvChromiumExecutablePath
                            (chromium_executablePath chromium) ;;
    if negb (truthyString executablePath)
       || negb (existsSyncUnpacked sys executablePath)
    then throw noChromiumFound
    else
      _ <- await (EvImport "puppeteer-core") (import_puppeteer_core sys) ;;
      ret (mkBrowserLauncher PuppeteerCore executablePath (chromium_args chromium)).

(** [getBrowserLauncher()] *)
Definition getBrowserLauncher (sys : System) : T BrowserLauncher :=
  localPuppeteer <- resolveLocalPuppeteer sys ;;
  match localPuppeteer with
  | Some launcher => ret launcher
  | None =>
    let envExecutable := env sys "PUPPETEER_EXECUTABLE_PATH" in
    match envExecutable with
    | Some path =>
      if truthyString path && existsSync sys path then
        _ <- await (EvImport "puppeteer-core") (import_puppeteer_core sys) ;;
        ret (mkBrowserLauncher PuppeteerCore path [])
      else cloudChromium sys
    | None => cloudChromium sys
    end
  end.

End PdfLauncher.


(** * What the properties are stated with *)

(** ** The tree endpoint *)

Module TreeSpec.
Import Js TreeRoute.

(** The node a listing entry stands for, without what is below it. *)
Definition entryNode (e : Entry) : list Node :=
  if String.eqb (e_type e) "dir" then [mkNode (e_path e) dir None]
  else if String.eqb (e_type e) "file" then [mkNode (e_path e) file (e_size e)]
  else [].

(** The listing of the example: README.md (10 bytes), src/, src/index.ts
    (20 bytes) in the repository acme/demo; every other request is a 404. *)
Definition demoOctokit : Octokit :=
  mkOctokit (fun owner repo path =>
    if String.eqb owner "acme" && String.eqb repo "demo" then
      if String.eqb path "" then
        Ok (ContentArray [mkEntry "file" "README.md" (Some 10);
                          mkEntry "dir" "src" None])
      else if String.eqb path "src" then
        Ok (ContentArray [mkEntry "file" "src/index.ts" (Some 20)])
      else Throw (mkError (Some 404) "Not Found")
    else Throw (mkError (Some 404) "Not Found")).

(** A chain of directories d/d/d/... that never ends. *)
Definition chainOctokit : Octokit :=
  mkOctokit (fun _ _ path =>
    Ok (ContentArray [mkEntry "dir" (path +++ "/d") None;
                      mkEntry "file" (path +++ "/f") (Some 1)])).

(** A client whose every request fails with the given status and message. *)
Definition failingOctokit (status : option Z) (message : string) : Octokit :=
  mkOctokit (fun _ _ _ => Throw (mkError status message)).

End TreeSpec.

(** ** The dossier assembler *)

Module MarkdownSpec.
Import Js Markdown.

(** The laws of a collation: any two names compare, and consistently. *)
Definition CollationTotal `{Host} : Prop :=
  forall a b, localeCompare a b <= 0 \/ localeCompare b a <= 0.

Definition CollationTransitive `{Host} : Prop :=
  forall a b c, localeCompare a b <= 0 -> localeCompare b c <= 0 ->
                localeCompare a c <= 0.

(** No two different names compare equal. *)
Definition CollationStrict `{Host} : Prop :=
  forall a b, localeCompare a b <= 0 -> localeCompare b a <= 0 -> a = b.

(** [a] sorts before [b], or with it. *)
Definition nameLe `{Host} {V : Type} (a b : string * V) : Prop :=
  localeCompare (fst a) (fst b) <= 0.

(** The rendering the spec describes: at every level the children come in
    the order of their names; each child is a line made of the prefix, a
    branch marker and the name, followed by the rendering of its own
    children under a prefix three characters longer; the last child has
    the terminal marker, every earlier one the other marker. *)
Inductive Rendered `{Host} : string -> TreeNode -> list string -> Prop :=
| Rendered_level prefix node siblings lines :
    Permutation siblings (children node) ->
    Sorted nameLe siblings ->
    RenderedSiblings prefix siblings lines ->
    Rendered prefix node lines
with RenderedSiblings `{Host}
  : string -> list (string * TreeNode) -> list string -> Prop :=
| Siblings_none prefix :
    RenderedSiblings prefix [] []
| Siblings_last prefix name child below :
    Rendered (prefix +++ "   ") child below ->
    RenderedSiblings prefix [(name, child)]
                     ((prefix +++ "┗ " +++ name) :: below)
| Siblings_earlier prefix name child below next rest lines :
    Rendered (prefix +++ "┃  ") child below ->
    RenderedSiblings prefix (next :: rest) lines ->
    RenderedSiblings prefix ((name, child) :: next :: rest)
                     ((prefix +++ "┣ " +++ name) :: below ++ lines).

(** The node reached from [t] along the names [parts], if there is one. *)
Fixpoint subtreeAt (parts : list string) (t : TreeNode) : option TreeNode :=
  match parts with
  | [] => Some t
  | part :: rest =>
    match mapGet part (children t) with
    | Some child => subtreeAt rest child
    | None => None
    end
  end.

(** [parts] is a path of the trie. *)
Definition member (parts : list string) (t : TreeNode) : Prop :=
  subtreeAt parts t <> None.

(** No node of the trie has a name twice among its children. *)
Definition WfTree (t : TreeNode) : Prop :=
  forall parts node, subtreeAt parts t = Some node ->
                     NoDup (map fst (children node)).

(** [q] is an initial part of [parts]. *)
Fixpoint isPrefix (q parts : list string) : Prop :=
  match q, parts with
  | [], _ => True
  | _ :: _, [] => False
  | a :: q', b :: parts' => a = b /\ isPrefix q' parts'
  end.

(** The characters of [s] before its first line feed. *)
Fixpoint firstLine (s : string) : string :=
  match s with
  | EmptyString => EmptyString
  | String c rest =>
    if Ascii.eqb c (ascii_of_nat 10) then EmptyString
    else String c (firstLine rest)
  end.

(** [s] with the backslash before a "|" taken away. *)
Fixpoint unescapePipes (s : string) : string :=
  match s with
  | EmptyString => EmptyString
  | String c rest =>
    if Ascii.eqb c "\" then
      match rest with
      | String d rest' =>
        if Ascii.eqb d "|" then String d (unescapePipes rest')
        else String c (unescapePipes rest)
      | EmptyString => String c EmptyString
      end
    else String c (unescapePipes rest)
  end.

(** Every "|" of [s] comes right after a backslash; [escaped] tells
    whether the character before [s] is one. *)
Fixpoint pipesEscaped (escaped : bool) (s : string) : bool :=
  match s with
  | EmptyString => true
  | String c rest =>
    (if Ascii.eqb c "|" then escaped else true) &&
    pipesEscaped (Ascii.eqb c "\") rest
  end.

(** [s] has the character [c]. *)
Fixpoint hasChar (c : ascii) (s : string) : bool :=
  match s with
  | EmptyString => false
  | String d rest => Ascii.eqb d c || hasChar c rest
  end.

Definition oneLine (s : string) : Prop := hasChar (ascii_of_nat 10) s = false.

(** The child the inner loop moves to: the one under [part], fresh if
    there was none. *)
Definition childOr (t : TreeNode) (part : string) : TreeNode :=
  match mapGet part (children t) with
  | Some child => child
  | None => emptyTree
  end.

(** [a] is not after [b] for the comparator [cmp]. *)
Definition leBy {A : Type} (cmp : A -> A -> Z) (a b : A) : Prop := cmp a b <= 0.

(** The order of the collation on names. *)
Definition nameOrder `{Host} (a b : string) : Prop := localeCompare a b <= 0.

(** Two commits for the examples. *)
Definition demoCommits : list CommitReview :=
  [mkCommit "0123456789abcdef"
            ("fix a|b" +++ nl +++ "details") "2024-05-01" "https://example.org/c/1"
            3 4 2 [];
   mkCommit "fedcba9876543210" "second" "2024-05-02" "https://example.org/c/2"
            10 0 1 ["large"; "risky"]]%string.

(** A collation for the examples: code units, ascending. *)
Definition plainHost : Host := {|
  localeCompare := defaultCompare;
  toLowerCase := fun s => s;
  JsDate := string;
  newDate := fun s => s;
  toLocaleString := fun s => s
|}.

(** A name that can be a segment of a path: not empty, no slash. *)
Definition cleanName (x : string) : Prop :=
  x <> EmptyString /\ hasChar "/" x = false.

(** [a] is the name of a child of the node at [q] in the tree of [paths]:
    some path goes through [q] and then [a]. *)
Definition childName (paths : list string) (q : list string) (a : string) : Prop :=
  exists p, In p paths /\ isPrefix (q ++ [a]) (partsOf p).

(** The collation tells apart the siblings of [paths]: two different
    names under the same node do not compare equal. *)
Definition SiblingsApart `{Host} (paths : list string) : Prop :=
  forall q a b,
    childName paths q a -> childName paths q b ->
    localeCompare a b <= 0 -> localeCompare b a <= 0 -> a = b.

(** The same for the children of every node of a trie. *)
Definition NamesApart `{Host} (t : TreeNode) : Prop :=
  forall q node a b,
    subtreeAt q t = Some node ->
    In a (map fst (children node)) -> In b (map fst (children node)) ->
    localeCompare a b <= 0 -> localeCompare b a <= 0 -> a = b.

(** *** Code units

    A text as Unicode has it, a list of scalar values (code points that
    are not surrogates), with its two encodings: the UTF-8 bytes, which
    are what a [string] of this development holds, and the UTF-16 code
    units, which are what a string of JavaScript holds. *)
Definition scalar (c : Z) : Prop :=
  0 <= c < 0xD800 \/ 0xE000 <= c < 0x110000.

Definition utf8Char (c : Z) : list Z :=
  if c <? 0x80 then [c]
  else if c <? 0x800 then [0xC0 + c / 64; 0x80 + c mod 64]
  else if c <? 0x10000 then
    [0xE0 + c / 4096; 0x80 + (c / 64) mod 64; 0x80 + c mod 64]
  else
    [0xF0 + c / 262144; 0x80 + (c / 4096) mod 64; 0x80 + (c / 64) mod 64;
     0x80 + c mod 64].

Definition utf16Char (c : Z) : list Z :=
  if c <? 0x10000 then [c]
  else [0xD800 + (c - 0x10000) / 1024; 0xDC00 + (c - 0x10000) mod 1024].

Definition byte (n : Z) : ascii := ascii_of_N (Z.to_N n).

Definition utf8 (text : list Z) : string :=
  string_of_list_ascii (map byte (flat_map utf8Char text)).

Definition utf16 (text : list Z) : list Z := flat_map utf16Char text.

(** The order of two sequences of code units: the first unit in which
    they differ decides, and a sequence comes after its initial parts. *)
Fixpoint compareUnits (a b : list Z) : Z :=
  match a, b with
  | [], [] => 0
  | [], _ :: _ => -1
  | _ :: _, [] => 1
  | x :: a', y :: b' =>
      if x <? y then -1 else if y <? x then 1 else compareUnits a' b'
  end.

(** The order of two texts by their UTF-16 code units. *)
Definition compareUtf16 (a b : list Z) : Z := compareUnits (utf16 a) (utf16 b).

(** [sortKey] on the numbers of the bytes. *)
Definition keyOf (n : Z) : Z :=
  if n =? 238 then 254 else if n =? 239 then 255
  else if n =? 254 then 238 else if n =? 255 then 239 else n.

(** The place of a scalar value in the order of the code units: the
    surrogate pairs of U+10000..U+10FFFF lie between U+D7FF and U+E000. *)
Definition rank (c : Z) : Z :=
  if c <? 0xD800 then c
  else if c <? 0x10000 then c + 0x100000
  else c - 0x10000 + 0xD800.

(** The two spellings of "é": one code point (U+00E9), and "e" followed by
    the combining acute accent (U+0301), here in UTF-8. *)
Definition eAcuteComposed : string :=
  String (ascii_of_nat 195) (String (ascii_of_nat 169) EmptyString).
Definition eAcuteDecomposed : string :=
  String "e" (String (ascii_of_nat 204) (String (ascii_of_nat 129) EmptyString)).

(** ECMAScript requires of [localeCompare] that it "must return 0 when
    comparing Strings that are considered canonically equivalent" by
    Unicode.  [canonicalHost] is a collation that does so for the two
    spellings of "é" and compares code units otherwise. *)
Definition canonical (s : string) : string :=
  if String.eqb s eAcuteDecomposed then eAcuteComposed else s.

Definition canonicalHost : Host := {|
  localeCompare := fun a b => defaultCompare (canonical a) (canonical b);
  toLowerCase := fun s => s;
  JsDate := string;
  newDate := fun s => s;
  toLocaleString := fun s => s
|}.

End MarkdownSpec.

(** ** The PDF endpoint *)

Module PdfSpec.
Import Js Markdown PdfRoute.

(** The maximal runs of [s]: [s] cut where the class of the characters
    changes, each piece with its class. *)
Fixpoint runs (inClass : ascii -> bool) (s : string) : list (bool * string) :=
  match s with
  | EmptyString => []
  | String c rest =>
    match runs inClass rest with
    | (b, run) :: more =>
      if Bool.eqb b (inClass c) then (b, String c run) :: more
      else (inClass c, String c EmptyString) :: (b, run) :: more
    | [] => [(inClass c, String c EmptyString)]
    end
  end.

(** [s] with every maximal run of characters of the class replaced by
    [by_]. *)
Definition replaceEachRun (inClass : ascii -> bool) (by_ : string) (s : string) : string :=
  cat (map (fun r : bool * string => if fst r then by_ else snd r) (runs inClass s)).

(** Every character of [s] is of the class [b]. *)
Fixpoint allOfClass (inClass : ascii -> bool) (b : bool) (s : string) : Prop :=
  match s with
  | EmptyString => True
  | String c rest => inClass c = b /\ allOfClass inClass b rest
  end.

(** Neighbouring runs are of different classes. *)
Fixpoint alternating (rs : list (bool * string)) : Prop :=
  match rs with
  | r :: ((r' :: _) as more) => fst r <> fst r' /\ alternating more
  | _ => True
  end.

(** The allowlist: ASCII letters, digits, underscore, hyphen, dot. *)
Definition allowed (c : ascii) : Prop :=
  let n := nat_of_ascii c in
  (65 <= n <= 90)%nat \/ (97 <= n <= 122)%nat \/ (48 <= n <= 57)%nat \/
  n = 95%nat \/ n = 45%nat \/ n = 46%nat.

(** The body of the request does not supply [markdown]: it is not a JSON
    text at all (as a body of length zero), or its value has no such
    member. *)
Definition noMarkdown (req : Request) : Prop :=
  match req with
  | Throw _ => True
  | Ok value => getProp value "markdown" = None
  end.

(** A request with a body of length zero: [req.json()] rejects. *)
Definition emptyBodyRequest : Request :=
  Throw (newError "Unexpected end of JSON input").

(** Collaborators that all succeed. *)
Definition okEnv : Env := {|
  md_render := fun _ => Ok "<h1>Hi</h1>"%string;
  getBrowserLauncher := Ok (mkLauncher "/usr/bin/chromium" []);
  puppeteer_launch := fun _ => Ok tt;
  browser_newPage := Ok tt;
  page_setContent := fun _ => Ok tt;
  page_emulateMediaType := fun _ => Ok tt;
  page_pdf := fun _ => Ok [37; 80; 68; 70];
  browser_close := Ok tt
|}.

(** The response to a request without [markdown]. *)
Definition markdownRequired : Response :=
  mkResponse 400 [] (BodyText "markdown required").

(** A browser was launched. *)
Definition launched (trace : list Event) : Prop :=
  exists l, In (EvLaunch l) trace.

End PdfSpec.

(** ** More of the three files *)

Module ExtraSpec.
Import Js.

(** The entries [walk] has a branch for. *)
Definition listed (e : TreeRoute.Entry) : bool :=
  String.eqb (TreeRoute.e_type e) "dir" || String.eqb (TreeRoute.e_type e) "file".

(** The client [octokit] with the entries of other types (symbolic
    links, submodules) taken out of every listing. *)
Definition withoutOthers (octokit : TreeRoute.Octokit) : TreeRoute.Octokit :=
  TreeRoute.mkOctokit (fun owner repo path =>
    match TreeRoute.getContent octokit owner repo path with
    | Ok data => Ok (TreeRoute.ContentArray (filter listed (TreeRoute.entriesOf data)))
    | Throw err => Throw err
    end).

(** A repository whose directory "b" cannot be read. *)
Definition brokenOctokit : TreeRoute.Octokit :=
  TreeRoute.mkOctokit (fun _ _ path =>
    if String.eqb path "" then
      Ok (TreeRoute.ContentArray
            [TreeRoute.mkEntry "file" "a" (Some 1);
             TreeRoute.mkEntry "dir" "b" None;
             TreeRoute.mkEntry "dir" "c" None])
    else if String.eqb path "b" then Throw (mkError (Some 500) "boom")
    else Ok (TreeRoute.ContentArray [])).

(** Every character of [s] passes [ok]. *)
Fixpoint allChars (ok : ascii -> bool) (s : string) : bool :=
  match s with
  | EmptyString => true
  | String c rest => ok c && allChars ok rest
  end.

(** [s] begins with [c]. *)
Definition startsWith (c : ascii) (s : string) : bool :=
  match s with
  | String a _ => Ascii.eqb a c
  | EmptyString => false
  end.

(** [s] does not have [c] twice in a row. *)
Fixpoint noTwice (c : ascii) (s : string) : bool :=
  match s with
  | EmptyString => true
  | String a rest => negb (Ascii.eqb a c && startsWith c rest) && noTwice c rest
  end.

(** The language tags of the code blocks. *)
Definition languageTags : list string :=
  ["ts"; "tsx"; "js"; "jsx"; "json"; "md"; "yaml"; "dotenv"; "css"; "html"; "sql"; ""]%string.

(** The characters of an anchor: lower-case letters, digits, hyphen. *)
Definition anchorChar (c : ascii) : bool :=
  Markdown.isLower c || Markdown.isDigit c || Ascii.eqb c "-".

(** The characters [escapeHtml] replaces. *)
Definition markupChar (c : ascii) : bool :=
  Ascii.eqb c "&" || Ascii.eqb c "<" || Ascii.eqb c ">" ||
  Ascii.eqb c (ascii_of_nat 34) || Ascii.eqb c "'".

(** The characters that open or close markup or an attribute. *)
Definition breakingChar (c : ascii) : bool :=
  Ascii.eqb c "<" || Ascii.eqb c ">" ||
  Ascii.eqb c (ascii_of_nat 34) || Ascii.eqb c "'".

(** A machine with the full package installed. *)
Definition laptop : PdfLauncher.System := {|
  PdfLauncher.import_puppeteer := Ok tt;
  PdfLauncher.puppeteer_executablePath := Ok "/cache/chrome"%string;
  PdfLauncher.import_puppeteer_core := Ok tt;
  PdfLauncher.import_chromium := Throw (newError "Cannot find module");
  PdfLauncher.existsSync := fun p => String.eqb p "/cache/chrome" || String.eqb p "/usr/bin/chromium";
  PdfLauncher.existsSyncUnpacked := fun p => String.eqb p "/cache/chrome" || String.eqb p "/usr/bin/chromium";
  PdfLauncher.env := fun name =>
    if String.eqb name "PUPPETEER_EXECUTABLE_PATH" then Some "/usr/bin/chromium"%string
    else None;
  PdfLauncher.platform := "darwin"
|}.

(** A machine without the full package, with a browser at the path the
    environment gives. *)
Definition server : PdfLauncher.System := {|
  PdfLauncher.import_puppeteer := Throw (newError "Cannot find package 'puppeteer'");
  PdfLauncher.puppeteer_executablePath := Throw (newError "unreachable");
  PdfLauncher.import_puppeteer_core := Ok tt;
  PdfLauncher.import_chromium := Throw (newError "Cannot find module");
  PdfLauncher.existsSync := fun p => String.eqb p "/usr/bin/chromium";
  PdfLauncher.existsSyncUnpacked := fun p => String.eqb p "/usr/bin/chromium";
  PdfLauncher.env := fun name =>
    if String.eqb name "PUPPETEER_EXECUTABLE_PATH" then Some "/usr/bin/chromium"%string
    else None;
  PdfLauncher.platform := "linux"
|}.

(** A machine with nothing installed and nothing configured. *)
Definition bare : PdfLauncher.System := {|
  PdfLauncher.import_puppeteer := Ok tt;
  PdfLauncher.puppeteer_executablePath := Ok "/cache/chrome"%string;
  PdfLauncher.import_puppeteer_core := Ok tt;
  PdfLauncher.import_chromium := Throw (newError "Cannot find module");
  PdfLauncher.existsSync := fun _ => false;
  PdfLauncher.existsSyncUnpacked := fun _ => false;
  PdfLauncher.env := fun name =>
    if String.eqb name "PUPPETEER_EXECUTABLE_PATH" then Some ""%string
    else if String.eqb name "VERCEL" then Some "1"%string
    else None;
  PdfLauncher.platform := "win32"
|}.

(** A serverless function: the cloud build unpacks the browser. *)
Definition lambda : PdfLauncher.System := {|
  PdfLauncher.import_puppeteer := Throw (newError "Cannot find package 'puppeteer'");
  PdfLauncher.puppeteer_executablePath := Throw (newError "unreachable");
  PdfLauncher.import_puppeteer_core := Ok tt;
  PdfLauncher.import_chromium :=
    Ok (PdfLauncher.mkChromium true false (Ok "/tmp/chromium"%string)
          ["--no-sandbox"]%string);
  PdfLauncher.existsSync := fun _ => false;
  PdfLauncher.existsSyncUnpacked := fun p => String.eqb p "/tmp/chromium";
  PdfLauncher.env := fun name =>
    if String.eqb name "AWS_REGION" then Some "eu-west-1"%string else None;
  PdfLauncher.platform := "linux"
|}.

(** Collaborators of the handler whose browser starts and then fails to
    print. *)
Definition failingPrintEnv : PdfRoute.Env := {|
  PdfRoute.md_render := fun _ => Ok "<h1>Hi</h1>"%string;
  PdfRoute.getBrowserLauncher := Ok (PdfRoute.mkLauncher "/usr/bin/chromium" []);
  PdfRoute.puppeteer_launch := fun _ => Ok tt;
  PdfRoute.browser_newPage := Ok tt;
  PdfRoute.page_setContent := fun _ => Ok tt;
  PdfRoute.page_emulateMediaType := fun _ => Ok tt;
  PdfRoute.page_pdf := fun _ => Throw (newError "Printing failed");
  PdfRoute.browser_close := Ok tt
|}.

End ExtraSpec.

(** * Properties *)

(** ** The tree endpoint *)

Module TreeProofs.
Import Js TreeRoute TreeSpec.

Lemma walkEntries_acc recur entries : forall out,
  walkEntries recur entries out =
  match walkEntries recur entries [] with
  | Some (Ok nodes) => Some (Ok (out ++ nodes))
  | other => other
  end.
Proof.
  induction entries as [|e rest IH]; intros out; simpl.
  - now rewrite app_nil_r.
  - destruct (String.eqb (e_type e) "dir").
    + destruct (recur (e_path e)) as [[sub|err]|]; trivial.
      rewrite IH, (IH (mkNode (e_path e) dir None :: sub)).
      destruct (walkEntries recur rest []) as [[nodes|err]|]; trivial.
      now rewrite <- !app_assoc.
    + destruct (String.eqb (e_type e) "file").
      * rewrite IH, (IH [mkNode (e_path e) file (e_size e)]).
        destruct (walkEntries recur rest []) as [[nodes|err]|]; trivial.
        now rewrite <- !app_assoc.
      * apply IH.
Qed.

(** One step of the loop, with the accumulator factored out. *)
Lemma walkEntries_cons recur e rest :
  walkEntries recur (e :: rest) [] =
  if String.eqb (e_type e) "dir" then
    match recur (e_path e) with
    | None => None
    | Some (Throw err) => Some (Throw err)
    | Some (Ok sub) =>
      match walkEntries recur rest [] with
      | Some (Ok nodes) => Some (Ok (mkNode (e_path e) dir None :: sub ++ nodes))
      | other => other
      end
    end
  else
    match walkEntries recur rest [] with
    | Some (Ok nodes) => Some (Ok (entryNode e ++ nodes))
    | other => other
    end.
Proof.
  simpl. unfold entryNode.
  destruct (String.eqb (e_type e) "dir").
  - destruct (recur (e_path e)) as [[sub|err]|]; trivial.
    rewrite walkEntries_acc.
    destruct (walkEntries recur rest []) as [[nodes|err]|]; trivial.
  - destruct (String.eqb (e_type e) "file").
    + rewrite walkEntries_acc.
      destruct (walkEntries recur rest []) as [[nodes|err]|]; trivial.
    + destruct (walkEntries recur rest []) as [[nodes|err]|]; trivial.
Qed.

(** When every recursive call is cut off, the loop returns the entries of
    the listing and nothing else. *)
Lemma walkEntries_cut entries :
  walkEntries (fun _ => Some (Ok [])) entries [] = Some (Ok (flat_map entryNode entries)).
Proof.
  induction entries as [|e rest IH].
  - reflexivity.
  - rewrite walkEntries_cons, IH. unfold entryNode. simpl.
    destruct (String.eqb (e_type e) "dir"); trivial.
Qed.

(** The loop never runs out of fuel if the recursive calls do not. *)
Lemma walkEntries_total recur entries :
  (forall p, recur p <> None) -> walkEntries recur entries [] <> None.
Proof.
  intros Hrec. induction entries as [|e rest IH].
  - discriminate.
  - rewrite walkEntries_cons.
    destruct (String.eqb (e_type e) "dir").
    + specialize (Hrec (e_path e)).
      destruct (recur (e_path e)) as [[sub|err]|]; try congruence.
      destruct (walkEntries recur rest []) as [[nodes|err]|]; congruence.
    + destruct (walkEntries recur rest []) as [[nodes|err]|]; congruence.
Qed.

(** Splitting the listing at a directory entry splits the output. *)
Lemma walkEntries_split recur pre e post out :
  String.eqb (e_type e) "dir" = true ->
  walkEntries recur (pre ++ e :: post) [] = Some (Ok out) ->
  exists before below after,
    walkEntries recur pre [] = Some (Ok before) /\
    recur (e_path e) = Some (Ok below) /\
    walkEntries recur post [] = Some (Ok after) /\
    out = before ++ mkNode (e_path e) dir None :: below ++ after.
Proof.
  intros Hdir. revert out.
  induction pre as [|x pre IH]; intros out Hout.
  - simpl app in Hout. rewrite walkEntries_cons, Hdir in Hout.
    destruct (recur (e_path e)) as [[below|err]|]; try discriminate.
    destruct (walkEntries recur post []) as [[after|err]|]; try discriminate.
    injection Hout as <-. now exists [], below, after.
  - change ((x :: pre) ++ e :: post) with (x :: (pre ++ e :: post)) in Hout.
    rewrite walkEntries_cons in Hout. rewrite walkEntries_cons.
    destruct (String.eqb (e_type x) "dir").
    + destruct (recur (e_path x)) as [[sub|err]|]; try discriminate.
      destruct (walkEntries recur (pre ++ e :: post) []) as [[nodes|err]|];
        try discriminate.
      injection Hout as <-.
      destruct (IH nodes eq_refl) as (before & below & after & -> & Hb & Ha & ->).
      exists (mkNode (e_path x) dir None :: sub ++ before), below, after.
      repeat split; trivial. simpl. now rewrite <- app_assoc.
    + destruct (walkEntries recur (pre ++ e :: post) []) as [[nodes|err]|];
        try discriminate.
      injection Hout as <-.
      destruct (IH nodes eq_refl) as (before & below & after & -> & Hb & Ha & ->).
      exists (entryNode x ++ before), below, after.
      repeat split; trivial. now rewrite <- app_assoc.
Qed.

(** With [fuelFor depth] units or more the walk returns. *)
Lemma walk_fuel_total g fuel : forall owner repo path depth,
  (fuelFor depth <= fuel)%nat ->
  walk_fuel g fuel owner repo path depth <> None.
Proof.
  unfold fuelFor, MAX_DEPTH.
  induction fuel as [|fuel IH]; intros owner repo path depth Hfuel; [lia|].
  simpl. unfold MAX_DEPTH.
  destruct (6 <? depth) eqn:Hd; [discriminate|].
  apply Z.ltb_ge in Hd.
  destruct g as [octokit|err]; [|discriminate].
  destruct (getContent octokit owner repo path) as [data|err]; [|discriminate].
  assert (Hloop : walkEntries (fun p => walk_fuel (Ok octokit) fuel owner repo p (depth + 1))
                    (entriesOf data) [] <> None).
  { apply walkEntries_total. intros p. apply IH. lia. }
  destruct (walkEntries _ (entriesOf data) []) as [[nodes|err]|]; simpl; congruence.
Qed.

(** More fuel does not change a result. *)
Lemma walk_fuel_mono g fuel : forall fuel' owner repo path depth r,
  (fuel <= fuel')%nat ->
  walk_fuel g fuel owner repo path depth = Some r ->
  walk_fuel g fuel' owner repo path depth = Some r.
Proof.
  induction fuel as [|fuel IH]; intros fuel' owner repo path depth r Hle Hr;
    [discriminate|].
  destruct fuel' as [|fuel']; [lia|].
  simpl in *.
  destruct (MAX_DEPTH <? depth); trivial.
  destruct g as [octokit|err]; trivial.
  destruct (getContent octokit owner repo path) as [data|err]; trivial.
  assert (Hloop : forall entries out r',
             walkEntries (fun p => walk_fuel (Ok octokit) fuel owner repo p (depth + 1))
                         entries out = Some r' ->
             walkEntries (fun p => walk_fuel (Ok octokit) fuel' owner repo p (depth + 1))
                         entries out = Some r').
  { induction entries as [|e rest IHe]; intros out r' Hr'; simpl in *; trivial.
    destruct (String.eqb (e_type e) "dir").
    - destruct (walk_fuel (Ok octokit) fuel owner repo (e_path e) (depth + 1))
        as [r0|] eqn:E; [|discriminate].
      rewrite (IH fuel' _ _ _ _ r0 ltac:(lia) E).
      destruct r0; auto.
    - destruct (String.eqb (e_type e) "file"); auto. }
  destruct (walkEntries (fun p => walk_fuel (Ok octokit) fuel owner repo p (depth + 1))
              (entriesOf data) []) as [r'|] eqn:E; [|discriminate].
  now rewrite (Hloop _ _ _ E).
Qed.

(** One call of [walk] at a depth within the cap, with a client and a
    listing. *)
Lemma walk_fuel_step octokit fuel owner repo path depth data :
  depth <= MAX_DEPTH ->
  getContent octokit owner repo path = Ok data ->
  walk_fuel (Ok octokit) (S fuel) owner repo path depth =
  catchNormalize
    (walkEntries (fun p => walk_fuel (Ok octokit) fuel owner repo p (depth + 1))
                 (entriesOf data) []).
Proof.
  intros Hd Hdata. simpl.
  apply Z.ltb_ge in Hd. now rewrite Hd, Hdata.
Qed.

(** C1.  A call of [walk] beyond the cap returns the empty list and does
    not throw, whatever the client would answer; a call at the cap returns
    the nodes of its own listing, directories included, and nothing from
    inside them; and the whole walk of a chain of directories that never
    ends returns, with the nodes of depths 0 to 6 only. *)
Theorem walk_depth_cap :
  (forall g fuel owner repo path depth,
     MAX_DEPTH < depth ->
     walk_fuel g (S fuel) owner repo path depth = Some (Ok [])) /\
  (forall octokit fuel owner repo path data,
     getContent octokit owner repo path = Ok data ->
     walk_fuel (Ok octokit) (S (S fuel)) owner repo path MAX_DEPTH =
     Some (Ok (flat_map entryNode (entriesOf data)))) /\
  (forall octokit owner repo path data,
     getContent octokit owner repo path = Ok data ->
     walk_fuel (Ok octokit) (fuelFor MAX_DEPTH) owner repo path MAX_DEPTH =
     Some (Ok (flat_map entryNode (entriesOf data)))) /\
  (forall g owner repo path depth,
     walk_fuel g (fuelFor depth) owner repo path depth <> None) /\
  walk_fuel (Ok chainOctokit) (fuelFor 0) "o" "r" "" 0 =
  Some (Ok [mkNode "/d" dir None;
            mkNode "/d/d" dir None;
            mkNode "/d/d/d" dir None;
            mkNode "/d/d/d/d" dir None;
            mkNode "/d/d/d/d/d" dir None;
            mkNode "/d/d/d/d/d/d" dir None;
            mkNode "/d/d/d/d/d/d/d" dir None;
            mkNode "/d/d/d/d/d/d/f" file (Some 1);
            mkNode "/d/d/d/d/d/f" file (Some 1);
            mkNode "/d/d/d/d/f" file (Some 1);
            mkNode "/d/d/d/f" file (Some 1);
            mkNode "/d/d/f" file (Some 1);
            mkNode "/d/f" file (Some 1);
            mkNode "/f" file (Some 1)]).
Proof.
  assert (Hcut : forall g fuel owner repo path depth,
             MAX_DEPTH < depth ->
             walk_fuel g (S fuel) owner repo path depth = Some (Ok [])).
  { intros g fuel owner repo path depth Hd. simpl.
    apply Z.ltb_lt in Hd. now rewrite Hd. }
  assert (Hcap : forall octokit fuel owner repo path data,
             getContent octokit owner repo path = Ok data ->
             walk_fuel (Ok octokit) (S (S fuel)) owner repo path MAX_DEPTH =
             Some (Ok (flat_map entryNode (entriesOf data)))).
  { intros octokit fuel owner repo path data Hdata.
    rewrite (walk_fuel_step _ _ _ _ _ _ data); trivial; [|reflexivity].
    rewrite (walkEntries_cut (entriesOf data)) at 1. reflexivity. }
  repeat split.
  - exact Hcut.
  - exact Hcap.
  - intros. now apply Hcap.
  - intros. now apply walk_fuel_total.
Qed.

Lemma walk_depth_cap_witness :
  MAX_DEPTH < 7 /\
  walk_fuel (Ok chainOctokit) 1 "o" "r" "/d/d/d/d/d/d/d" 7 = Some (Ok []).
Proof.
  split.
  - reflexivity.
  - apply (proj1 walk_depth_cap). reflexivity.
Defined.

(** C2.  In the result of a call of [walk], the node of a directory entry
    comes right before the nodes of the recursive call on that directory,
    after the nodes of the entries listed before it and before those of the
    entries listed after it; and on the listing of acme/demo the endpoint
    answers with README.md, src, src/index.ts in this order. *)
Theorem walk_dir_before_children :
  (forall octokit fuel owner repo path depth data pre e post out,
     depth <= MAX_DEPTH ->
     getContent octokit owner repo path = Ok data ->
     entriesOf data = pre ++ e :: post ->
     e_type e = "dir"%string ->
     walk_fuel (Ok octokit) (S fuel) owner repo path depth = Some (Ok out) ->
     let recur := fun p => walk_fuel (Ok octokit) fuel owner repo p (depth + 1) in
     exists before below after,
       out = before ++ mkNode (e_path e) dir None :: below ++ after /\
       walkEntries recur pre [] = Some (Ok before) /\
       recur (e_path e) = Some (Ok below) /\
       walkEntries recur post [] = Some (Ok after)) /\
  walk_fuel (Ok demoOctokit) (fuelFor 0) "acme" "demo" "" 0 =
    Some (Ok [mkNode "README.md" file (Some 10);
              mkNode "src" dir None;
              mkNode "src/index.ts" file (Some 20)]) /\
  GET (Ok demoOctokit) "acme" "demo" =
    Some (mkResponse 200 (BodyJson [mkNode "README.md" file (Some 10);
                                    mkNode "src" dir None;
                                    mkNode "src/index.ts" file (Some 20)])).
Proof.
  split; [|split; reflexivity].
  intros octokit fuel owner repo path depth data pre e post out
         Hd Hdata Hsplit Hdir Hout recur.
  rewrite (walk_fuel_step _ _ _ _ _ _ data Hd Hdata), Hsplit in Hout.
  fold recur in Hout.
  destruct (walkEntries recur (pre ++ e :: post) []) as [[nodes|err]|] eqn:E;
    try discriminate.
  injection Hout as ->.
  apply walkEntries_split in E; [|now rewrite Hdir].
  destruct E as (before & below & after & Hb & Hr & Ha & ->).
  now exists before, below, after.
Qed.

Lemma walk_dir_before_children_witness :
  exists before below after,
    [mkNode "README.md" file (Some 10); mkNode "src" dir None;
     mkNode "src/index.ts" file (Some 20)] =
    before ++ mkNode "src" dir None :: below ++ after /\
    before = [mkNode "README.md" file (Some 10)] /\
    below = [mkNode "src/index.ts" file (Some 20)] /\
    after = [].
Proof.
  destruct (proj1 walk_dir_before_children demoOctokit 7%nat "acme" "demo" ""
              0 (ContentArray [mkEntry "file" "README.md" (Some 10);
                               mkEntry "dir" "src" None])
              [mkEntry "file" "README.md" (Some 10)] (mkEntry "dir" "src" None) []
              [mkNode "README.md" file (Some 10); mkNode "src" dir None;
               mkNode "src/index.ts" file (Some 20)])%string
    as (before & below & after & Hout & Hb & Hr & Ha).
  - unfold MAX_DEPTH. lia.
  - reflexivity.
  - reflexivity.
  - reflexivity.
  - reflexivity.
  - exists before, below, after.
    injection Hb as <-. injection Hr as <-. injection Ha as <-.
    repeat split.
Defined.

(** Every error a walk with a client throws is the normalized form of a
    failed fetch. *)
Lemma walk_throws_normalized octokit fuel : forall owner repo path depth e,
  walk_fuel (Ok octokit) fuel owner repo path depth = Some (Throw e) ->
  exists p err, getContent octokit owner repo p = Throw err /\ e = normalize err.
Proof.
  induction fuel as [|fuel IH]; intros owner repo path depth e Hw; [discriminate|].
  simpl in Hw.
  destruct (MAX_DEPTH <? depth); [discriminate|].
  destruct (getContent octokit owner repo path) as [data|err] eqn:Hdata.
  - assert (Hloop : forall entries out e',
               walkEntries (fun p => walk_fuel (Ok octokit) fuel owner repo p (depth + 1))
                           entries out = Some (Throw e') ->
               exists p err, getContent octokit owner repo p = Throw err /\
                             e' = normalize err).
    { induction entries as [|x rest IHe]; intros out e' He'; simpl in He';
        [discriminate|].
      destruct (String.eqb (e_type x) "dir").
      - destruct (walk_fuel (Ok octokit) fuel owner repo (e_path x) (depth + 1))
          as [[sub|err]|] eqn:E; try discriminate.
        + eauto.
        + injection He' as <-. eauto.
      - destruct (String.eqb (e_type x) "file"); eauto. }
    destruct (walkEntries _ (entriesOf data) []) as [[nodes|e']|] eqn:E;
      try discriminate.
    simpl in Hw. injection Hw as <-.
    destruct (Hloop _ _ _ E) as (p & err & Hp & ->).
    exists p, err. split; trivial.
  - simpl in Hw. injection Hw as <-. eauto.
Qed.

(** C3.  The handler answers every walk; a walk that throws is answered
    with the message of the error as text and with status 401 for the
    messages "Unauthorized" and "No GitHub token", 404 for "Not Found" and
    502 for every other message.  A failed fetch with status 404 makes the
    walk throw "Not Found", a failed fetch with another status or none makes
    it throw the message of the failure, and every error of a walk with a
    client is one of these two; without a client the walk throws the error
    of [getOctokitForUser] as it is. *)
Theorem tree_error_mapping :
  (forall g owner name,
     exists response,
       GET g owner name = Some response /\
       match walk_fuel g (fuelFor 0) owner name "" 0 with
       | Some (Ok nodes) => response = mkResponse 200 (BodyJson nodes)
       | Some (Throw e) =>
         let msg := getErrorMessage e in
         body response = BodyText msg /\
         (msg = "Unauthorized"%string \/ msg = "No GitHub token"%string ->
          status response = 401) /\
         (msg = "Not Found"%string -> status response = 404) /\
         (msg <> "Unauthorized"%string -> msg <> "No GitHub token"%string ->
          msg <> "Not Found"%string -> status response = 502)
       | None => False
       end) /\
  (forall octokit fuel owner repo path depth err,
     depth <= MAX_DEPTH ->
     getContent octokit owner repo path = Throw err ->
     (err_status err = Some 404 ->
      walk_fuel (Ok octokit) (S fuel) owner repo path depth =
      Some (Throw (newError "Not Found"))) /\
     (err_status err <> Some 404 ->
      walk_fuel (Ok octokit) (S fuel) owner repo path depth =
      Some (Throw (newError (err_message err))))) /\
  (forall octokit fuel owner repo path depth e,
     walk_fuel (Ok octokit) fuel owner repo path depth = Some (Throw e) ->
     exists p err,
       getContent octokit owner repo p = Throw err /\
       (err_status err = Some 404 -> e = newError "Not Found") /\
       (err_status err <> Some 404 -> e = newError (err_message err))) /\
  (forall err owner name,
     walk_fuel (Throw err) (fuelFor 0) owner name "" 0 = Some (Throw err)).
Proof.
  split; [|split; [|split; [|reflexivity]]].
  - intros g owner name. unfold GET.
    pose proof (walk_fuel_total g (fuelFor 0) owner name "" 0 (le_n _)) as Htot.
    destruct (walk_fuel g (fuelFor 0) owner name "" 0) as [[nodes|e]|];
      [eexists; split; reflexivity| |congruence].
    eexists. split; [reflexivity|]. cbn [body status]. unfold statusOf.
    set (msg := getErrorMessage e).
    split; [reflexivity|]. split; [|split].
    + intros [-> | ->]; reflexivity.
    + intros ->. reflexivity.
    + intros H1 H2 H3.
      apply String.eqb_neq in H1, H2, H3. now rewrite H1, H2, H3.
  - intros octokit fuel owner repo path depth err Hd Hfail.
    apply Z.ltb_ge in Hd.
    split; intros Hs; simpl; rewrite Hd, Hfail; simpl; unfold normalize.
    + now rewrite Hs.
    + destruct (err_status err) as [st|]; [|reflexivity].
      destruct (Z.eqb_spec st 404) as [->|]; [congruence|reflexivity].
  - intros octokit fuel owner repo path depth e Hw.
    destruct (walk_throws_normalized _ _ _ _ _ _ _ Hw) as (p & err & Hp & ->).
    exists p, err. split; trivial. unfold normalize.
    split; intros Hs.
    + now rewrite Hs.
    + destruct (err_status err) as [st|]; [|reflexivity].
      destruct (Z.eqb_spec st 404) as [->|]; [congruence|reflexivity].
Qed.

Lemma tree_error_mapping_witness :
  0 <= MAX_DEPTH /\
  walk_fuel (Ok (failingOctokit (Some 404) "gone")) (fuelFor 0) "o" "r" "" 0 =
    Some (Throw (newError "Not Found")) /\
  walk_fuel (Ok (failingOctokit (Some 403) "rate limit")) (fuelFor 0) "o" "r" "" 0 =
    Some (Throw (newError "rate limit")).
Proof.
  assert (H0 : 0 <= MAX_DEPTH) by (unfold MAX_DEPTH; lia).
  split; [exact H0|]. split.
  - apply (proj1 (proj2 tree_error_mapping) (failingOctokit (Some 404) "gone")
             7%nat "o" "r" "" 0 (mkError (Some 404) "gone") H0 eq_refl)%string.
    reflexivity.
  - apply (proj1 (proj2 tree_error_mapping) (failingOctokit (Some 403) "rate limit")
             7%nat "o" "r" "" 0 (mkError (Some 403) "rate limit") H0 eq_refl)%string.
    discriminate.
Defined.

End TreeProofs.

(** ** The dossier assembler *)

Module MarkdownProofs.
Import Js Markdown MarkdownSpec.

(** *** Strings *)

Lemma append_assoc (a b c : string) : (a +++ b) +++ c = a +++ b +++ c.
Proof.
  induction a as [|x a IH]; simpl; [reflexivity|now rewrite IH].
Qed.

Lemma append_nil_r (a : string) : a +++ EmptyString = a.
Proof.
  induction a as [|x a IH]; simpl; [reflexivity|now rewrite IH].
Qed.

Lemma cat_app (xs ys : list string) : cat (xs ++ ys) = cat xs +++ cat ys.
Proof.
  induction xs as [|x xs IH]; simpl; [reflexivity|].
  now rewrite IH, append_assoc.
Qed.

(** *** Sorting *)

Section SortFacts.
Context {A : Type} (cmp : A -> A -> Z).

#[local] Abbreviation le := (leBy cmp).

Lemma insertBy_perm x l : Permutation (insertBy cmp x l) (x :: l).
Proof.
  induction l as [|y l IH]; simpl; [reflexivity|].
  destruct (cmp x y <=? 0); [reflexivity|].
  rewrite IH. apply perm_swap.
Qed.

Lemma sortBy_perm l : Permutation (sortBy cmp l) l.
Proof.
  induction l as [|x l IH]; simpl; [reflexivity|].
  now rewrite insertBy_perm, IH.
Qed.

Lemma sortBy_In x l : In x (sortBy cmp l) <-> In x l.
Proof.
  split; apply Permutation_in;
    [apply sortBy_perm|apply Permutation_sym, sortBy_perm].
Qed.

Lemma sortBy_length l : List.length (sortBy cmp l) = List.length l.
Proof. apply Permutation_length, sortBy_perm. Qed.

Hypothesis cmp_total : forall a b, le a b \/ le b a.

Lemma insertBy_sorted x l : Sorted le l -> Sorted le (insertBy cmp x l).
Proof.
  induction 1 as [|y l Hl IH Hhd]; simpl.
  - repeat constructor.
  - destruct (Z.leb_spec (cmp x y) 0) as [Hxy|Hxy].
    + constructor; [now constructor|now constructor].
    + constructor; [exact IH|].
      assert (Hyx : le y x) by (destruct (cmp_total x y); [unfold leBy in *; lia|trivial]).
      destruct Hhd as [|z l Hyz]; simpl.
      * now constructor.
      * destruct (cmp x z <=? 0); now constructor.
Qed.

Lemma sortBy_sorted l : Sorted le (sortBy cmp l).
Proof.
  induction l as [|x l IH]; simpl; [constructor|now apply insertBy_sorted].
Qed.

(** Sorting a sorted array leaves it as it is. *)
Lemma sortBy_fixed l : Sorted le l -> sortBy cmp l = l.
Proof.
  induction 1 as [|x l Hl IH Hhd]; simpl; [reflexivity|].
  rewrite IH. destruct Hhd as [|y l Hxy]; simpl; [reflexivity|].
  unfold leBy in Hxy. apply Z.leb_le in Hxy. now rewrite Hxy.
Qed.

Lemma sortBy_idempotent l : sortBy cmp (sortBy cmp l) = sortBy cmp l.
Proof. apply sortBy_fixed, sortBy_sorted. Qed.

End SortFacts.

Lemma sortKey_involutive c : sortKey (sortKey c) = c.
Proof.
  destruct c as [[|] [|] [|] [|] [|] [|] [|] [|]]; reflexivity.
Qed.

Lemma sortKeys_inj a : forall b, sortKeys a = sortKeys b -> a = b.
Proof.
  induction a as [|x a IH]; intros [|y b]; simpl; try discriminate; trivial.
  intros [= Hxy Hab]. f_equal; [|now apply IH].
  now rewrite <- (sortKey_involutive x), Hxy, sortKey_involutive.
Qed.

Lemma defaultCompare_total a b :
  defaultCompare a b <= 0 \/ defaultCompare b a <= 0.
Proof.
  unfold defaultCompare. rewrite (String.compare_antisym (sortKeys a) (sortKeys b)).
  destruct (String.compare (sortKeys b) (sortKeys a)); simpl; lia.
Qed.

(** *** [xs.sort()] orders by UTF-16 code units *)

Ltac split_tests :=
  try lia;
  repeat match goal with
  | |- context [?x <? ?y] => destruct (Z.ltb_spec x y); try lia
  | |- context [?x =? ?y] => destruct (Z.eqb_spec x y); try lia
  | H : context [?x <? ?y] |- _ => destruct (Z.ltb_spec x y); try lia
  | H : context [?x =? ?y] |- _ => destruct (Z.eqb_spec x y); try lia
  end.

Ltac name_digits :=
  repeat match goal with
  | |- context [?a mod ?b] =>
      let r := fresh "r" in set (r := a mod b) in *; clearbody r
  end;
  repeat match goal with
  | |- context [?a / ?b] =>
      let q := fresh "q" in set (q := a / b) in *; clearbody q
  end.

Lemma digits c :
  c = 64 * (c / 64) + c mod 64 /\
  c = 4096 * (c / 4096) + 64 * ((c / 64) mod 64) + c mod 64 /\
  c = 262144 * (c / 262144) + 4096 * ((c / 4096) mod 64) +
      64 * ((c / 64) mod 64) + c mod 64 /\
  0 <= c mod 64 < 64 /\ 0 <= (c / 64) mod 64 < 64 /\
  0 <= (c / 4096) mod 64 < 64.
Proof. Z.div_mod_to_equations. lia. Qed.

Lemma keyOf_same n : n < 238 \/ 240 <= n < 254 -> keyOf n = n.
Proof. intros Hn. unfold keyOf. split_tests. Qed.

Lemma keyOf_swap n : 238 <= n < 240 -> keyOf n = n + 16.
Proof. intros Hn. unfold keyOf. split_tests. Qed.

Ltac drop_keys :=
  repeat match goal with
  | |- context [keyOf ?n] =>
      first [rewrite (keyOf_same n) by lia | rewrite (keyOf_swap n) by lia]
  end.

Ltac by_length c :=
  destruct (Z.ltb_spec c 0x80);
    [|destruct (Z.ltb_spec c 0x800); [|destruct (Z.ltb_spec c 0x10000)]].

(** Two different characters: their UTF-16 code units differ, and as the
    ranks of the characters do. *)
Lemma utf16_first c d u v :
  scalar c -> scalar d -> c <> d ->
  compareUnits (utf16Char c ++ u) (utf16Char d ++ v) =
  if rank c <? rank d then -1 else 1.
Proof.
  intros Hc Hd Hne. unfold scalar in *. unfold utf16Char, rank.
  destruct (Z.ltb_spec c 0x10000); destruct (Z.ltb_spec d 0x10000);
    cbn [app compareUnits]; Z.div_mod_to_equations; split_tests.
Qed.

(** So do their UTF-8 bytes, once keyed. *)
Lemma utf8_first c d u v :
  scalar c -> scalar d -> c <> d ->
  compareUnits (map keyOf (utf8Char c ++ u)) (map keyOf (utf8Char d ++ v)) =
  if rank c <? rank d then -1 else 1.
Proof.
  intros Hc Hd Hne. unfold scalar in *. unfold utf8Char, rank.
  pose proof (digits c) as (Hc2 & Hc3 & Hc4 & ? & ? & ?).
  pose proof (digits d) as (Hd2 & Hd3 & Hd4 & ? & ? & ?).
  destruct Hc, Hd; by_length c; try lia; by_length d; try lia;
    cbn [app map compareUnits]; name_digits; drop_keys; split_tests.
Qed.

Lemma utf8Char_bytes c :
  scalar c -> Forall (fun x => 0 <= x < 256) (utf8Char c).
Proof.
  intros Hc. unfold scalar in Hc. unfold utf8Char.
  pose proof (digits c) as (Hc2 & Hc3 & Hc4 & ? & ? & ?).
  by_length c; repeat constructor; name_digits; lia.
Qed.

Lemma utf8_bytes text :
  Forall scalar text -> Forall (fun x => 0 <= x < 256) (flat_map utf8Char text).
Proof.
  induction 1 as [|c text Hc _ IH]; simpl; [constructor|].
  apply Forall_app. split; [now apply utf8Char_bytes|exact IH].
Qed.

Lemma compareUnits_app l : forall u v,
  compareUnits (l ++ u) (l ++ v) = compareUnits u v.
Proof.
  induction l as [|x l IH]; intros u v; simpl; [reflexivity|].
  now rewrite Z.ltb_irrefl.
Qed.

Lemma compareUnits_total a : forall b,
  compareUnits a b <= 0 \/ compareUnits b a <= 0.
Proof.
  induction a as [|x a IH]; intros [|y b]; simpl; try lia.
  destruct (Z.ltb_spec x y), (Z.ltb_spec y x); try lia. apply IH.
Qed.

Lemma sortKey_keyOf c :
  Z.of_N (N_of_ascii (sortKey c)) = keyOf (Z.of_N (N_of_ascii c)).
Proof.
  destruct c as [[|] [|] [|] [|] [|] [|] [|] [|]]; reflexivity.
Qed.

Lemma sortKey_byte x :
  0 <= x < 256 -> Z.of_N (N_of_ascii (sortKey (byte x))) = keyOf x.
Proof.
  intros Hx. rewrite sortKey_keyOf. unfold byte.
  rewrite N_ascii_embedding by lia. now rewrite Z2N.id by lia.
Qed.

(** Comparing two strings as [defaultCompare] does is comparing the keys
    of their bytes. *)
Lemma defaultCompare_keys xs : forall ys,
  Forall (fun x => 0 <= x < 256) xs -> Forall (fun x => 0 <= x < 256) ys ->
  defaultCompare (string_of_list_ascii (map byte xs))
                 (string_of_list_ascii (map byte ys)) =
  compareUnits (map keyOf xs) (map keyOf ys).
Proof.
  unfold defaultCompare.
  induction xs as [|x xs IH]; intros [|y ys] Hxs Hys; try reflexivity.
  inversion Hxs as [|? ? Hx Hxs']; inversion Hys as [|? ? Hy Hys']; subst.
  specialize (IH ys Hxs' Hys').
  cbn [map string_of_list_ascii sortKeys compareUnits String.compare].
  unfold Ascii.compare. rewrite <- N2Z.inj_compare, !sortKey_byte by assumption.
  destruct (Z.compare_spec (keyOf x) (keyOf y)) as [E|E|E].
  - rewrite E, Z.ltb_irrefl. exact IH.
  - apply Z.ltb_lt in E. now rewrite E.
  - destruct (Z.ltb_spec (keyOf x) (keyOf y)); [lia|].
    apply Z.ltb_lt in E. now rewrite E.
Qed.

Lemma utf8Char_cons c : exists x l, utf8Char c = x :: l.
Proof. unfold utf8Char. by_length c; eauto. Qed.

Lemma utf16Char_cons c : exists x l, utf16Char c = x :: l.
Proof. unfold utf16Char. destruct (c <? 0x10000); eauto. Qed.

Lemma keys_utf16 a : forall b,
  Forall scalar a -> Forall scalar b ->
  compareUnits (map keyOf (flat_map utf8Char a)) (map keyOf (flat_map utf8Char b)) =
  compareUnits (utf16 a) (utf16 b).
Proof.
  unfold utf16.
  induction a as [|c a IH]; intros [|d b] Ha Hb; try reflexivity.
  - cbn [flat_map].
    destruct (utf8Char_cons d) as (x & l & ->).
    now destruct (utf16Char_cons d) as (y & l' & ->).
  - cbn [flat_map].
    destruct (utf8Char_cons c) as (x & l & ->).
    now destruct (utf16Char_cons c) as (y & l' & ->).
  - inversion Ha as [|? ? Hc Ha']; inversion Hb as [|? ? Hd Hb']; subst.
    cbn [flat_map]. destruct (Z.eq_dec c d) as [->|Hne].
    + rewrite !map_app, !compareUnits_app. now apply IH.
    + now rewrite utf8_first, utf16_first.
Qed.

(** The comparator of [xs.sort()] orders two texts by their UTF-16 code
    units. *)
Lemma defaultCompare_utf16 a b :
  Forall scalar a -> Forall scalar b ->
  defaultCompare (utf8 a) (utf8 b) = compareUtf16 a b.
Proof.
  intros Ha Hb. unfold utf8, compareUtf16.
  rewrite defaultCompare_keys by now apply utf8_bytes.
  now apply keys_utf16.
Qed.

(** "😀" (U+1F600) comes before "～" (U+FF5E), whose code unit is above
    the surrogates, although its bytes come after. *)
Lemma defaultCompare_astral :
  utf8 [0x1F600] = "😀"%string /\ utf8 [0xFF5E] = "～"%string /\
  defaultCompare "😀" "～" = -1 /\
  String.compare "😀" "～" = Gt.
Proof. repeat split. Qed.

(** *** The trie and its height *)

Lemma height_child name child ch :
  In (name, child) ch -> (height child < height (mkTree ch))%nat.
Proof.
  induction ch as [|e ch IH]; intros Hin; [contradiction|].
  change (height (mkTree (e :: ch)))
    with (Nat.max (S (height (snd e))) (height (mkTree ch))).
  destruct Hin as [->|Hin].
  - cbn [snd]. lia.
  - specialize (IH Hin). lia.
Qed.

(** *** [Map] *)

Section MapFacts.
Context {V : Type}.
Implicit Types (m : list (string * V)) (k : string) (v : V).

Lemma mapHas_mapGet k m :
  mapHas k m = match mapGet k m with Some _ => true | None => false end.
Proof.
  induction m as [|[k' v'] m IH]; simpl; [reflexivity|].
  destruct (String.eqb k' k); simpl; [reflexivity|exact IH].
Qed.

Lemma mapGet_mapSet_same k v m : mapGet k (mapSet k v m) = Some v.
Proof.
  induction m as [|[k' v'] m IH]; simpl.
  - now rewrite String.eqb_refl.
  - destruct (String.eqb k' k) eqn:E; simpl.
    + now rewrite String.eqb_refl.
    + now rewrite E.
Qed.

Lemma mapGet_mapSet_other k k' v m :
  k' <> k -> mapGet k' (mapSet k v m) = mapGet k' m.
Proof.
  intros Hne. induction m as [|[k0 v0] m IH]; simpl.
  - apply not_eq_sym, String.eqb_neq in Hne. now rewrite Hne.
  - destruct (String.eqb_spec k0 k) as [->|Hk0]; simpl.
    + apply not_eq_sym, String.eqb_neq in Hne. now rewrite Hne.
    + destruct (String.eqb k0 k'); [reflexivity|exact IH].
Qed.

Lemma mapSet_mapSet k v v' m : mapSet k v (mapSet k v' m) = mapSet k v m.
Proof.
  induction m as [|[k0 v0] m IH]; simpl.
  - now rewrite String.eqb_refl.
  - destruct (String.eqb k0 k) eqn:E; simpl.
    + now rewrite String.eqb_refl.
    + now rewrite E, IH.
Qed.

Lemma mapGet_In_key k m : mapGet k m <> None <-> In k (map fst m).
Proof.
  induction m as [|[k' v'] m IH]; simpl.
  - split; [congruence|contradiction].
  - destruct (String.eqb_spec k' k) as [->|Hne].
    + split; [now left|congruence].
    + rewrite IH. split; [now right|]. intros [E|Hin]; [contradiction|exact Hin].
Qed.

Lemma mapSet_keys k v m :
  map fst (mapSet k v m) =
  if mapHas k m then map fst m else map fst m ++ [k].
Proof.
  induction m as [|[k' v'] m IH]; simpl; [reflexivity|].
  destruct (String.eqb_spec k' k) as [->|Hne]; simpl; [reflexivity|].
  rewrite IH. now destruct (mapHas k m).
Qed.

Lemma mapSet_NoDup k v m : NoDup (map fst m) -> NoDup (map fst (mapSet k v m)).
Proof.
  intros Hnd. rewrite mapSet_keys, mapHas_mapGet.
  destruct (mapGet k m) eqn:E; [exact Hnd|].
  apply NoDup_app; [exact Hnd|repeat constructor; intros []|].
  intros x Hx [<-|[]].
  apply mapGet_In_key in Hx. congruence.
Qed.

Lemma mapGet_In k v m :
  NoDup (map fst m) -> In (k, v) m -> mapGet k m = Some v.
Proof.
  induction m as [|[k' v'] m IH]; simpl; intros Hnd Hin; [contradiction|].
  inversion Hnd as [|? ? Hnotin Hnd']; subst.
  destruct Hin as [E|Hin].
  - injection E as -> ->. now rewrite String.eqb_refl.
  - destruct (String.eqb_spec k' k) as [->|Hne].
    + exfalso. apply Hnotin. now apply (in_map fst) in Hin.
    + now apply IH.
Qed.

End MapFacts.

(** *** [print] returns *)

Lemma forEachIdx_total {V : Type} (f : V -> nat -> option (list string)) entries :
  forall idx,
    (forall e i, In e entries -> f e i <> None) ->
    forEachIdx f idx entries <> None.
Proof.
  induction entries as [|e rest IH]; intros idx Hf; simpl; [discriminate|].
  specialize (IH (S idx) (fun e' i Hin => Hf e' i (or_intror Hin))).
  pose proof (Hf e idx (or_introl eq_refl)) as He.
  destruct (f e idx); [|congruence].
  destruct (forEachIdx f (S idx) rest); congruence.
Qed.

Lemma print_fuel_total `{Host} fuel : forall node prefix,
  (height node < fuel)%nat -> print_fuel fuel node prefix <> None.
Proof.
  induction fuel as [|fuel IH]; intros node prefix Hh; [lia|].
  simpl. apply forEachIdx_total. intros [name child] i Hin.
  apply sortBy_In in Hin. unfold printEntry. cbn [fst snd].
  destruct (0 <? List.length (children child))%nat; [|discriminate].
  assert (Hchild : (height child < fuel)%nat).
  { destruct node as [ch]. cbn [children] in Hin.
    apply height_child in Hin. lia. }
  match goal with
  | |- context [print_fuel fuel child ?p] =>
    specialize (IH child p Hchild); destruct (print_fuel fuel child p)
  end; congruence.
Qed.

Lemma buildAsciiTree_total `{Host} paths : buildAsciiTree paths <> None.
Proof.
  destruct paths as [|p paths]; [discriminate|].
  unfold buildAsciiTree.
  pose proof (print_fuel_total (S (height (buildTrie (p :: paths))))
                (buildTrie (p :: paths)) EmptyString (Nat.lt_succ_diag_r _)) as Ht.
  destruct (print_fuel _ _ _); congruence.
Qed.

(** *** [print] renders as the spec describes *)

Section PrintFacts.
Context `{Host}.

Lemma rendered_leaf prefix child :
  children child = [] -> Rendered prefix child [].
Proof.
  intros Hch. apply Rendered_level with (siblings := []).
  - now rewrite Hch.
  - constructor.
  - constructor.
Qed.

Lemma print_fuel_rendered (Htotal : CollationTotal) fuel : forall node prefix,
  (height node < fuel)%nat ->
  exists lines, print_fuel fuel node prefix = Some lines /\
                Rendered prefix node lines.
Proof.
  induction fuel as [|fuel IH]; intros node prefix Hh; [lia|].
  simpl.
  set (entries := sortBy byName (children node)).
  assert (Hperm : Permutation entries (children node)) by apply sortBy_perm.
  assert (Hsorted : Sorted nameLe entries).
  { apply (sortBy_sorted byName). intros a b. apply Htotal. }
  enough (Hloop : forall rest done,
             entries = done ++ rest ->
             exists lines,
               forEachIdx (printEntry (print_fuel fuel) prefix entries)
                          (List.length done) rest = Some lines /\
               RenderedSiblings prefix rest lines).
  { destruct (Hloop entries [] eq_refl) as (lines & Hrun & Hren).
    exists lines. split; [exact Hrun|].
    now apply Rendered_level with (siblings := entries). }
  induction rest as [|[name child] rest IHrest]; intros done Hsplit.
  - exists []. split; [reflexivity|constructor].
  - assert (Hin : In (name, child) (children node)).
    { apply (Permutation_in _ Hperm). rewrite Hsplit.
      apply in_or_app. right. now left. }
    assert (Hchild : (height child < fuel)%nat).
    { destruct node as [ch]. apply height_child in Hin. simpl in Hin, Hh. lia. }
    assert (Hlen : List.length entries = (List.length done + S (List.length rest))%nat).
    { rewrite Hsplit, length_app. reflexivity. }
    destruct (IHrest (done ++ [(name, child)])) as (more & Hmore & Hrmore).
    { rewrite Hsplit, <- app_assoc. reflexivity. }
    rewrite length_app in Hmore. simpl in Hmore.
    rewrite Nat.add_1_r in Hmore.
    cbn [forEachIdx]. rewrite Hmore. unfold printEntry. cbn [fst snd].
    destruct rest as [|next rest].
    + (* the last child *)
      assert (Hlast : Nat.eqb (List.length done) (List.length entries - 1) = true).
      { apply Nat.eqb_eq. rewrite Hlen. simpl. lia. }
      rewrite Hlast.
      simpl in Hmore. injection Hmore as <-.
      destruct (IH child ((prefix +++ "  ") +++ " ") Hchild) as (below & Hb & Hrb).
      rewrite append_assoc in Hrb. change ("  " +++ " ") with "   "%string in Hrb.
      destruct (0 <? List.length (children child))%nat eqn:Hsize.
      * rewrite Hb. exists (((prefix +++ branchLast +++ " " +++ name) :: below) ++ []).
        split; [reflexivity|].
        rewrite app_nil_r. now apply Siblings_last.
      * exists ([prefix +++ branchLast +++ " " +++ name] ++ []).
        split; [reflexivity|].
        apply Siblings_last. apply rendered_leaf.
        apply Nat.ltb_ge in Hsize.
        destruct (children child); [reflexivity|simpl in Hsize; lia].
    + (* an earlier child *)
      assert (Hmid : Nat.eqb (List.length done) (List.length entries - 1) = false).
      { apply Nat.eqb_neq. rewrite Hlen. simpl. lia. }
      rewrite Hmid.
      destruct (IH child ((prefix +++ "┃ ") +++ " ") Hchild) as (below & Hb & Hrb).
      rewrite append_assoc in Hrb. change ("┃ " +++ " ") with "┃  "%string in Hrb.
      destruct (0 <? List.length (children child))%nat eqn:Hsize.
      * rewrite Hb. exists (((prefix +++ branchMid +++ " " +++ name) :: below) ++ more).
        split; [reflexivity|].
        now apply Siblings_earlier.
      * exists ([prefix +++ branchMid +++ " " +++ name] ++ more).
        split; [reflexivity|].
        apply (Siblings_earlier prefix name child []); [|exact Hrmore].
        apply rendered_leaf.
        apply Nat.ltb_ge in Hsize.
        destruct (children child); [reflexivity|simpl in Hsize; lia].
Qed.

End PrintFacts.

(** *** The trie holds the paths, each name once *)

Lemma insertParts_cons part rest t :
  insertParts (part :: rest) t =
  mkTree (mapSet part (insertParts rest (childOr t part)) (children t)).
Proof.
  simpl. unfold childOr. rewrite mapHas_mapGet.
  destruct (mapGet part (children t)) as [child|] eqn:E.
  - now rewrite E.
  - now rewrite mapGet_mapSet_same, mapSet_mapSet.
Qed.

Lemma member_nil t : member [] t.
Proof. discriminate. Qed.

Lemma member_empty q : member q emptyTree <-> q = [].
Proof.
  destruct q as [|k q]; split; easy.
Qed.

Lemma isPrefix_nil_r q : isPrefix q [] <-> q = [].
Proof. destruct q; simpl; split; easy. Qed.

Lemma member_insertParts parts : forall t q,
  member q (insertParts parts t) <-> member q t \/ isPrefix q parts.
Proof.
  induction parts as [|part rest IH]; intros t q.
  - simpl insertParts. rewrite isPrefix_nil_r. split; [now left|].
    intros [Hm| ->]; [exact Hm|apply member_nil].
  - rewrite insertParts_cons. destruct q as [|k q].
    + split; [now left|intros _; apply member_nil].
    + unfold member at 1 2. simpl subtreeAt. simpl isPrefix.
      destruct (String.eqb_spec k part) as [->|Hne].
      * rewrite mapGet_mapSet_same. fold (member q (insertParts rest (childOr t part))).
        rewrite IH. unfold childOr.
        destruct (mapGet part (children t)) as [child|].
        -- fold (member q child). tauto.
        -- rewrite member_empty. split.
           ++ intros [->|Hp]; right; (split; [reflexivity|]); [exact I|exact Hp].
           ++ intros [Hm|[_ Hp]]; [now elim Hm|now right].
      * rewrite mapGet_mapSet_other by exact Hne.
        split; [now left|]. intros [Hm|[E _]]; [exact Hm|contradiction].
Qed.

Lemma wf_child t k child :
  WfTree t -> mapGet k (children t) = Some child -> WfTree child.
Proof.
  intros Hwf Hget parts node Hsub.
  apply (Hwf (k :: parts)). simpl. now rewrite Hget.
Qed.

Lemma wf_empty : WfTree emptyTree.
Proof.
  intros [|k parts] node; simpl; [|discriminate].
  intros [= <-]. constructor.
Qed.

Lemma wf_childOr t part : WfTree t -> WfTree (childOr t part).
Proof.
  intros Hwf. unfold childOr.
  destruct (mapGet part (children t)) as [child|] eqn:E.
  - now apply (wf_child t part).
  - apply wf_empty.
Qed.

Lemma wf_insertParts parts : forall t, WfTree t -> WfTree (insertParts parts t).
Proof.
  induction parts as [|part rest IH]; intros t Hwf; [exact Hwf|].
  rewrite insertParts_cons. intros [|k q] node; simpl.
  - intros [= <-]. simpl. apply mapSet_NoDup. now apply (Hwf []).
  - destruct (String.eqb_spec k part) as [->|Hne].
    + rewrite mapGet_mapSet_same. apply IH. now apply wf_childOr.
    + rewrite mapGet_mapSet_other by exact Hne.
      intros Hsub. now apply (Hwf (k :: q)).
Qed.

Lemma buildTrie_from paths : forall t,
  (WfTree t -> WfTree (fold_left (fun root p => insertParts (partsOf p) root) paths t)) /\
  (forall q, member q (fold_left (fun root p => insertParts (partsOf p) root) paths t)
             <-> member q t \/ exists p, In p paths /\ isPrefix q (partsOf p)).
Proof.
  induction paths as [|p paths IH]; intros t; simpl.
  - split; [trivial|]. intros q. split; [now left|].
    intros [Hm|(p & [] & _)]. exact Hm.
  - destruct (IH (insertParts (partsOf p) t)) as [IHwf IHm]. split.
    + intros Hwf. now apply IHwf, wf_insertParts.
    + intros q. rewrite IHm, member_insertParts. split.
      * intros [[Hm|Hp]|(p' & Hin & Hp)]; eauto 6.
      * intros [Hm|(p' & [<-|Hin] & Hp)]; eauto 6.
Qed.

(** The trie of [buildAsciiTree] has every name once under a node, and
    its paths are the initial parts of the given paths. *)
Lemma buildTrie_wf paths : WfTree (buildTrie paths).
Proof. apply buildTrie_from, wf_empty. Qed.

Lemma buildTrie_member paths q :
  member q (buildTrie paths) <->
  q = [] \/ exists p, In p paths /\ isPrefix q (partsOf p).
Proof.
  unfold buildTrie. rewrite (proj2 (buildTrie_from paths emptyTree)).
  now rewrite member_empty.
Qed.

(** *** A rendering is determined by the paths of the trie *)

Section Unique.
Context `{Host}.
Hypothesis Htrans : CollationTransitive.

#[local] Abbreviation le := nameOrder.

Lemma sorted_names {V : Type} (entries : list (string * V)) :
  Sorted nameLe entries -> StronglySorted le (map fst entries).
Proof.
  intros Hs. apply Sorted_StronglySorted.
  - intros a b c. apply Htrans.
  - induction Hs as [|e entries Hs IH Hhd]; simpl; constructor; trivial.
    destruct Hhd; simpl; constructor; trivial.
Qed.

(** Two sorted lists without repetition that have the same elements,
    which the collation tells apart, are the same list. *)
Lemma sorted_names_unique (l1 : list string) : forall l2,
  (forall a b, In a l1 -> In b l1 -> le a b -> le b a -> a = b) ->
  StronglySorted le l1 -> StronglySorted le l2 ->
  NoDup l1 -> NoDup l2 ->
  (forall x, In x l1 <-> In x l2) ->
  l1 = l2.
Proof.
  induction l1 as [|x l1 IH]; intros [|y l2] Hstrict Hs1 Hs2 Hn1 Hn2 Hsame.
  - reflexivity.
  - destruct (proj2 (Hsame y)). now left.
  - destruct (proj1 (Hsame x)). now left.
  - inversion Hs1 as [|? ? Hs1' Hx]; inversion Hs2 as [|? ? Hs2' Hy]; subst.
    inversion Hn1 as [|? ? Hx1 Hn1']; inversion Hn2 as [|? ? Hy2 Hn2']; subst.
    rewrite Forall_forall in Hx, Hy.
    assert (Hxy : x = y).
    { destruct (proj1 (Hsame x) (or_introl eq_refl)) as [E|Hin]; [now symmetry|].
      destruct (proj2 (Hsame y) (or_introl eq_refl)) as [E|Hin']; [exact E|].
      apply Hstrict; [now left|now right|now apply Hx|now apply Hy]. }
    subst y. f_equal. apply IH; trivial.
    { intros a b Ha Hb. apply Hstrict; now right. }
    intros z. split; intros Hz.
    + destruct (proj1 (Hsame z) (or_intror Hz)) as [<-|Hin]; [contradiction|exact Hin].
    + destruct (proj2 (Hsame z) (or_intror Hz)) as [<-|Hin]; [contradiction|exact Hin].
Qed.

Lemma member_cons k q t child :
  mapGet k (children t) = Some child ->
  member (k :: q) t <-> member q child.
Proof.
  intros Hget. unfold member. simpl. now rewrite Hget.
Qed.

Lemma rendered_unique n : forall t1 t2 prefix l1 l2,
  (height t1 < n)%nat ->
  WfTree t1 -> WfTree t2 ->
  NamesApart t1 ->
  (forall q, member q t1 <-> member q t2) ->
  Rendered prefix t1 l1 -> Rendered prefix t2 l2 ->
  l1 = l2.
Proof.
  induction n as [|n IH];
    intros t1 t2 prefix l1 l2 Hh Hwf1 Hwf2 Hapart Hsame Hr1 Hr2; [lia|].
  inversion Hr1 as [? ? s1 ? Hp1 Hs1 Hrs1]; subst.
  inversion Hr2 as [? ? s2 ? Hp2 Hs2 Hrs2]; subst.
  assert (Hnd1 : NoDup (map fst (children t1))) by now apply (Hwf1 []).
  assert (Hnd2 : NoDup (map fst (children t2))) by now apply (Hwf2 []).
  assert (Hkeys : map fst s1 = map fst s2).
  { apply sorted_names_unique.
    - intros a b Ha Hb. apply (Hapart [] t1); trivial.
      + apply (Permutation_in a (Permutation_map fst Hp1) Ha).
      + apply (Permutation_in b (Permutation_map fst Hp1) Hb).
    - now apply sorted_names.
    - now apply sorted_names.
    - apply (Permutation_NoDup (l := map fst (children t1))); trivial.
      apply Permutation_map, Permutation_sym, Hp1.
    - apply (Permutation_NoDup (l := map fst (children t2))); trivial.
      apply Permutation_map, Permutation_sym, Hp2.
    - intros k.
      assert (Hk : forall (s : list (string * TreeNode)) t,
                 Permutation s (children t) ->
                 In k (map fst s) <-> member [k] t).
      { intros s t Hp. unfold member. simpl.
        transitivity (In k (map fst (children t))).
        - split; apply Permutation_in, Permutation_map;
            [exact Hp|apply Permutation_sym, Hp].
        - rewrite <- mapGet_In_key.
          destruct (mapGet k (children t)); split; congruence. }
      rewrite (Hk s1 t1 Hp1), (Hk s2 t2 Hp2). apply Hsame. }
  assert (Hchildren : forall k c1 c2,
             In (k, c1) s1 -> In (k, c2) s2 ->
             forall p b1 b2, Rendered p c1 b1 -> Rendered p c2 b2 -> b1 = b2).
  { intros k c1 c2 Hin1 Hin2 p b1 b2.
    apply (Permutation_in _ Hp1) in Hin1. apply (Permutation_in _ Hp2) in Hin2.
    pose proof (mapGet_In _ _ _ Hnd1 Hin1) as Hg1.
    pose proof (mapGet_In _ _ _ Hnd2 Hin2) as Hg2.
    apply IH.
    - destruct t1 as [ch]. cbn [children] in Hin1.
      apply height_child in Hin1. lia.
    - now apply (wf_child t1 k).
    - now apply (wf_child t2 k).
    - intros q node a b Hsub. apply (Hapart (k :: q) node). simpl. now rewrite Hg1.
    - intros q. rewrite <- (member_cons k q t1 c1 Hg1), <- (member_cons k q t2 c2 Hg2).
      apply Hsame. }
  clear - Hkeys Hchildren Hrs1 Hrs2.
  revert s2 l1 l2 Hkeys Hchildren Hrs1 Hrs2.
  induction s1 as [|[k1 c1] s1 IHs]; intros s2 l1 l2 Hkeys Hchildren Hrs1 Hrs2.
  - destruct s2; [|discriminate].
    inversion Hrs1; inversion Hrs2; now subst.
  - destruct s2 as [|[k2 c2] s2]; [discriminate|].
    simpl in Hkeys. injection Hkeys as <- Hkeys.
    assert (Hhere : forall p b1 b2, Rendered p c1 b1 -> Rendered p c2 b2 -> b1 = b2).
    { apply (Hchildren k1); now left. }
    assert (Hrest : forall l1' l2',
               RenderedSiblings prefix s1 l1' -> RenderedSiblings prefix s2 l2' ->
               l1' = l2').
    { intros l1' l2'. apply IHs; trivial.
      intros k a b Ha Hb. apply (Hchildren k); now right. }
    inversion Hrs1 as [|? ? ? below1 Hb1|? ? ? below1 next1 rest1 more1 Hb1 Hm1]; subst;
      inversion Hrs2 as [|? ? ? below2 Hb2|? ? ? below2 next2 rest2 more2 Hb2 Hm2]; subst;
      try discriminate.
    + f_equal. now apply (Hhere _ _ _ Hb1 Hb2).
    + f_equal. f_equal.
      * now apply (Hhere _ _ _ Hb1 Hb2).
      * now apply Hrest.
Qed.

End Unique.

(** *** [buildAsciiTree] *)

Lemma split_without sep s :
  hasChar sep s = false -> split sep s = [s].
Proof.
  induction s as [|c rest IH]; simpl; [reflexivity|].
  intros Hs. apply orb_false_iff in Hs. destruct Hs as [Hc Hrest].
  now rewrite Hc, IH.
Qed.

Lemma split_at_first sep a b :
  hasChar sep a = false ->
  split sep (a +++ String sep b) = a :: split sep b.
Proof.
  induction a as [|c rest IH]; simpl.
  - now rewrite Ascii.eqb_refl.
  - intros Hs. apply orb_false_iff in Hs. destruct Hs as [Hc Hrest].
    now rewrite Hc, IH.
Qed.


Lemma plainHost_total : @CollationTotal plainHost.
Proof. intros a b. apply defaultCompare_total. Qed.

Lemma plainHost_strict : @CollationStrict plainHost.
Proof.
  intros a b. simpl. unfold defaultCompare.
  rewrite (String.compare_antisym (sortKeys b) (sortKeys a)).
  destruct (String.compare (sortKeys a) (sortKeys b)) eqn:E; simpl; try lia.
  intros _ _. now apply sortKeys_inj, String.compare_eq_iff.
Qed.

Lemma plainHost_transitive : @CollationTransitive plainHost.
Proof.
  intros a b c. simpl. unfold defaultCompare.
  destruct (String.compare (sortKeys a) (sortKeys b)) eqn:Eab; try lia;
    destruct (String.compare (sortKeys b) (sortKeys c)) eqn:Ebc; try lia; intros _ _.
  - apply String.compare_eq_iff in Eab. rewrite Eab, Ebc. lia.
  - apply String.compare_eq_iff in Eab. rewrite Eab, Ebc. lia.
  - apply String.compare_eq_iff in Ebc. rewrite <- Ebc, Eab. lia.
  - apply String_as_OT.cmp_lt in Eab, Ebc.
    pose proof (String_as_OT.lt_trans _ _ _ Eab Ebc) as Hac.
    apply String_as_OT.cmp_lt in Hac. unfold String_as_OT.cmp in Hac.
    rewrite Hac. lia.
Qed.

Lemma append_inj_l (p a b : string) : p +++ a = p +++ b -> a = b.
Proof.
  induction p as [|x p IH]; simpl; [trivial|].
  intros [= E]. now apply IH.
Qed.

Section Tree.
Context `{Host}.

(** [buildAsciiTree] returns, and returns the lines of a rendering of the
    trie joined by line feeds. *)
Lemma buildAsciiTree_lines (Htotal : CollationTotal) paths :
  exists lines,
    buildAsciiTree paths = Some (join nl lines) /\
    Rendered EmptyString (buildTrie paths) lines.
Proof.
  destruct (print_fuel_rendered Htotal (S (height (buildTrie paths)))
              (buildTrie paths) EmptyString (Nat.lt_succ_diag_r _))
    as (lines & Hrun & Hren).
  destruct paths as [|p paths].
  - exists []. split; [reflexivity|]. now apply rendered_leaf.
  - exists lines. split; [|exact Hren].
    unfold buildAsciiTree. now rewrite Hrun.
Qed.

Lemma partsOf_name x : cleanName x -> partsOf x = [x].
Proof.
  intros [Hne Hclean]. unfold partsOf. rewrite (split_without _ _ Hclean).
  simpl. now destruct x.
Qed.

Lemma partsOf_pair x z :
  cleanName x -> cleanName z -> partsOf (x +++ "/" +++ z) = [x; z].
Proof.
  intros [Hx Hcx] [Hz Hcz]. unfold partsOf.
  change ("/" +++ z) with (String "/" z).
  rewrite (split_at_first _ _ _ Hcx), (split_without _ _ Hcz).
  simpl. now destruct x, z.
Qed.

(** A directory with one file: two lines, the second three characters
    further in. *)
Lemma render_chain x z :
  cleanName x -> cleanName z ->
  buildAsciiTree [x +++ "/" +++ z] =
  Some (join nl ["┗ " +++ x; "   ┗ " +++ z]).
Proof.
  intros Hx Hz. unfold buildAsciiTree, buildTrie. cbn [fold_left].
  rewrite (partsOf_pair x z Hx Hz), !insertParts_cons.
  reflexivity.
Qed.

(** A directory with one file and a second name beside it, in either
    order of the paths. *)
Lemma render_siblings x y z :
  cleanName x -> cleanName y -> cleanName z -> x <> y ->
  localeCompare x y <= 0 ->
  buildAsciiTree [x +++ "/" +++ z; y] =
    Some (join nl ["┣ " +++ x; "┃  ┗ " +++ z; "┗ " +++ y]) /\
  (0 < localeCompare y x ->
   buildAsciiTree [y; x +++ "/" +++ z] =
     Some (join nl ["┣ " +++ x; "┃  ┗ " +++ z; "┗ " +++ y])).
Proof.
  intros Hx Hy Hz Hxy Hle.
  assert (Exy : String.eqb x y = false) by now apply String.eqb_neq.
  assert (Eyx : String.eqb y x = false) by (apply String.eqb_neq; congruence).
  apply Z.leb_le in Hle.
  split; [|intros Hgt; apply Z.leb_gt in Hgt];
    unfold buildAsciiTree, buildTrie; cbn [fold_left];
    rewrite (partsOf_pair x z Hx Hz), (partsOf_name y Hy), !insertParts_cons;
    unfold childOr; cbn [children emptyTree mapGet mapSet insertParts];
    rewrite ?Exy, ?Eyx, ?String.eqb_refl; cbn [children mapGet mapSet];
    rewrite ?Exy, ?Eyx, ?String.eqb_refl;
    cbn -[Z.leb String.append join]; unfold byName; cbn [fst];
    rewrite ?Hle, ?Hgt; reflexivity.
Qed.


(** *** The order of the paths *)

Lemma subtreeAt_app q r : forall t,
  subtreeAt (q ++ r) t =
  match subtreeAt q t with
  | Some node => subtreeAt r node
  | None => None
  end.
Proof.
  induction q as [|k q IH]; intros t; simpl; [reflexivity|].
  destruct (mapGet k (children t)); [apply IH|reflexivity].
Qed.

Lemma isPrefix_last q a : forall parts, isPrefix (q ++ [a]) parts -> In a parts.
Proof.
  induction q as [|k q IH]; intros [|part parts]; simpl; try tauto.
  - intros [-> _]. now left.
  - intros [_ Hp]. right. now apply IH.
Qed.

(** Siblings of the paths are children of one node of the trie. *)
Lemma buildTrie_apart paths : SiblingsApart paths -> NamesApart (buildTrie paths).
Proof.
  intros Hapart q node a b Hsub Ha Hb.
  assert (Hchild : forall c, In c (map fst (children node)) -> childName paths q c).
  { intros c Hc. apply mapGet_In_key in Hc.
    assert (Hm : member (q ++ [c]) (buildTrie paths)).
    { unfold member. rewrite subtreeAt_app, Hsub. simpl.
      destruct (mapGet c (children node)); congruence. }
    apply buildTrie_member in Hm. destruct Hm as [E|Hm]; [|exact Hm].
    now destruct q. }
  intros Hab Hba. apply (Hapart q); trivial; now apply Hchild.
Qed.

(** It is enough that the collation tells apart the names that occur in
    the paths. *)
Lemma names_apart paths :
  (forall a b,
     In a (List.concat (map partsOf paths)) ->
     In b (List.concat (map partsOf paths)) ->
     localeCompare a b <= 0 -> localeCompare b a <= 0 -> a = b) ->
  SiblingsApart paths.
Proof.
  intros Hnames q a b (pa & Hpa & Ha) (pb & Hpb & Hb).
  apply Hnames; apply in_concat.
  - exists (partsOf pa). split; [now apply in_map|now apply (isPrefix_last q)].
  - exists (partsOf pb). split; [now apply in_map|now apply (isPrefix_last q)].
Qed.

(** C10, as the code has it.  When the collation tells apart the
    siblings of the paths (two different names under the same directory
    never compare equal), two lists of paths with the same sequences of
    non-empty segments give the same text: the order of the paths,
    repeated paths and empty segments do not show; and the empty list
    gives the empty string.  (Siblings the collation takes for equal keep
    the order in which the paths brought them.) *)
Theorem ascii_tree_invariant
  (Htotal : CollationTotal) (Htrans : CollationTransitive) :
  (forall paths1 paths2,
     SiblingsApart paths1 ->
     (forall parts, parts <> [] ->
        (In parts (map partsOf paths1) <-> In parts (map partsOf paths2))) ->
     buildAsciiTree paths1 = buildAsciiTree paths2) /\
  (forall paths1 paths2,
     SiblingsApart paths1 ->
     Permutation paths1 paths2 -> buildAsciiTree paths1 = buildAsciiTree paths2) /\
  (forall p paths,
     SiblingsApart (p :: paths) ->
     buildAsciiTree (p :: p :: paths) = buildAsciiTree (p :: paths)) /\
  (forall p p' paths,
     SiblingsApart (p :: paths) ->
     partsOf p = partsOf p' ->
     buildAsciiTree (p :: paths) = buildAsciiTree (p' :: paths)) /\
  (CollationStrict -> forall paths, SiblingsApart paths) /\
  (forall paths, buildAsciiTree paths <> None) /\
  buildAsciiTree [] = Some EmptyString.
Proof.
  assert (Hmain : forall paths1 paths2,
             SiblingsApart paths1 ->
             (forall parts, parts <> [] ->
                (In parts (map partsOf paths1) <-> In parts (map partsOf paths2))) ->
             buildAsciiTree paths1 = buildAsciiTree paths2).
  { intros paths1 paths2 Hapart Hsame.
    destruct (buildAsciiTree_lines Htotal paths1) as (l1 & -> & Hr1).
    destruct (buildAsciiTree_lines Htotal paths2) as (l2 & -> & Hr2).
    do 2 f_equal.
    apply (rendered_unique Htrans (S (height (buildTrie paths1)))
             (buildTrie paths1) (buildTrie paths2) EmptyString); trivial.
    - apply Nat.lt_succ_diag_r.
    - apply buildTrie_wf.
    - apply buildTrie_wf.
    - now apply buildTrie_apart.
    - assert (Hdir : forall a b,
                 (forall parts, parts <> [] ->
                    In parts (map partsOf a) -> In parts (map partsOf b)) ->
                 forall q, member q (buildTrie a) -> member q (buildTrie b)).
      { intros a b Hab q. rewrite !buildTrie_member.
        intros [->|(p & Hin & Hp)]; [now left|].
        destruct q as [|k q]; [now left|]. right.
        assert (Hne : partsOf p <> []).
        { intros E. rewrite E in Hp. exact Hp. }
        apply (in_map partsOf) in Hin.
        apply (Hab _ Hne), in_map_iff in Hin.
        destruct Hin as (p' & E & Hin'). exists p'. now rewrite E. }
      intros q. split; apply Hdir; intros parts Hne; apply Hsame, Hne. }
  split; [exact Hmain|]. split; [|split; [|split; [|split; [|split]]]].
  - intros paths1 paths2 Hapart Hperm. apply Hmain; trivial. intros parts _.
    split; apply Permutation_in, Permutation_map;
      [exact Hperm|apply Permutation_sym, Hperm].
  - intros p paths Hapart. symmetry. apply Hmain; trivial.
    intros parts _. simpl. tauto.
  - intros p p' paths Hapart E. apply Hmain; trivial.
    intros parts _. simpl. now rewrite E.
  - intros Hstrict paths q a b _ _. apply Hstrict.
  - intros paths.
    destruct (buildAsciiTree_lines Htotal paths) as (l & -> & _). discriminate.
  - reflexivity.
Qed.

End Tree.


Lemma canonicalHost_consistent :
  @CollationTotal canonicalHost /\ @CollationTransitive canonicalHost.
Proof.
  split.
  - intros a b. apply plainHost_total.
  - intros a b c. apply plainHost_transitive.
Qed.

(** The collation of [canonicalHost] is not one that tells all names
    apart, and no collation that follows ECMAScript is. *)
Lemma canonicalHost_ties :
  @localeCompare canonicalHost eAcuteComposed eAcuteDecomposed = 0 /\
  eAcuteComposed <> eAcuteDecomposed /\
  ~ @CollationStrict canonicalHost.
Proof.
  split; [reflexivity|]. split; [discriminate|].
  intros Hstrict.
  assert (E : eAcuteComposed = eAcuteDecomposed).
  { apply Hstrict; vm_compute; discriminate. }
  discriminate.
Qed.

(** C10 as it is stated fails for a collation that takes the two
    spellings of "é" for equal, as ECMAScript requires: the two lists
    below hold the same two paths, and the sort, which is stable, leaves
    the two names in the order of the list. *)
Lemma ascii_tree_invariant_counterexample :
  Permutation [eAcuteComposed; eAcuteDecomposed] [eAcuteDecomposed; eAcuteComposed] /\
  (forall parts,
     In parts (map partsOf [eAcuteComposed; eAcuteDecomposed]) <->
     In parts (map partsOf [eAcuteDecomposed; eAcuteComposed])) /\
  @buildAsciiTree canonicalHost [eAcuteComposed; eAcuteDecomposed] =
    Some ("┣ " +++ eAcuteComposed +++ nl +++ "┗ " +++ eAcuteDecomposed) /\
  @buildAsciiTree canonicalHost [eAcuteDecomposed; eAcuteComposed] =
    Some ("┣ " +++ eAcuteDecomposed +++ nl +++ "┗ " +++ eAcuteComposed) /\
  @buildAsciiTree canonicalHost [eAcuteComposed; eAcuteDecomposed] <>
  @buildAsciiTree canonicalHost [eAcuteDecomposed; eAcuteComposed].
Proof.
  split; [apply perm_swap|].
  split; [intros parts; simpl; tauto|].
  split; [reflexivity|]. split; [reflexivity|]. discriminate.
Qed.

(** The theorem applies to the collation that takes the two spellings of
    "é" for equal: the names of these paths are told apart by it, and one
    of the spellings is among them. *)
Lemma ascii_tree_invariant_witness :
  @SiblingsApart canonicalHost
    ["src/b.ts"; "src/" +++ eAcuteComposed; "README.md"]%string /\
  @buildAsciiTree canonicalHost
    ["src/b.ts"; "src/" +++ eAcuteComposed; "README.md"]%string =
  @buildAsciiTree canonicalHost
    ["README.md"; "/src//" +++ eAcuteComposed; "src/b.ts/";
     "src/" +++ eAcuteComposed]%string.
Proof.
  assert (Hapart : @SiblingsApart canonicalHost
                     ["src/b.ts"; "src/" +++ eAcuteComposed; "README.md"]%string).
  { apply (@names_apart canonicalHost). intros a b Ha Hb.
    simpl in Ha, Hb.
    repeat (destruct Ha as [<-|Ha]; [|]); try destruct Ha;
      repeat (destruct Hb as [<-|Hb]; [|]); try destruct Hb;
      intros H1 H2; try reflexivity; exfalso; vm_compute in H1, H2;
      try (now apply H1); now apply H2. }
  split; [exact Hapart|].
  destruct canonicalHost_consistent as [Htotal Htrans].
  apply (proj1 (@ascii_tree_invariant canonicalHost Htotal Htrans)); [exact Hapart|].
  intros parts _. simpl. tauto.
Defined.

(** *** The commit table *)

Lemma hd_split sep s :
  hd EmptyString (split sep s) =
  (fix upTo (s : string) : string :=
     match s with
     | EmptyString => EmptyString
     | String c rest => if Ascii.eqb c sep then EmptyString else String c (upTo rest)
     end) s.
Proof.
  induction s as [|c rest IH]; simpl; [reflexivity|].
  destruct (Ascii.eqb c sep); [reflexivity|].
  rewrite <- IH. now destruct (split sep rest).
Qed.

Lemma hd_split_firstLine s :
  hd EmptyString (split (ascii_of_nat 10) s) = firstLine s.
Proof.
  rewrite hd_split. induction s as [|c rest IH]; simpl; [reflexivity|].
  now rewrite IH.
Qed.

(** Escaping the pipes and cutting at the first line feed commute. *)
Lemma firstLine_escape s :
  firstLine (replaceChar "|" "\|" s) = replaceChar "|" "\|" (firstLine s).
Proof.
  induction s as [|c rest IH]; simpl; [reflexivity|].
  destruct (Ascii.eqb_spec c "|") as [->|Hc].
  - simpl. now rewrite IH.
  - simpl. destruct (Ascii.eqb_spec c (ascii_of_nat 10)) as [->|Hn]; [reflexivity|].
    simpl. apply Ascii.eqb_neq in Hc. now rewrite Hc, IH.
Qed.

Lemma escape_head s :
  match replaceChar "|" "\|" s with
  | String d _ => Ascii.eqb d "|" = false
  | EmptyString => True
  end.
Proof.
  destruct s as [|c rest]; simpl; [exact I|].
  destruct (Ascii.eqb c "|") eqn:E; simpl; [reflexivity|exact E].
Qed.

Lemma unescape_escape s : unescapePipes (replaceChar "|" "\|" s) = s.
Proof.
  induction s as [|c rest IH]; simpl; [reflexivity|].
  destruct (Ascii.eqb_spec c "|") as [->|Hc].
  - simpl. now rewrite IH.
  - simpl. rewrite IH.
    destruct (Ascii.eqb c "\"); [|reflexivity].
    pose proof (escape_head rest) as Hhd.
    destruct (replaceChar "|" "\|" rest) as [|d rest'] eqn:E.
    + simpl in IH. now rewrite <- IH.
    + now rewrite Hhd.
Qed.

Lemma escape_pipesEscaped s : forall escaped,
  pipesEscaped escaped (replaceChar "|" "\|" s) = true.
Proof.
  induction s as [|c rest IH]; intros escaped; simpl; [reflexivity|].
  destruct (Ascii.eqb_spec c "|") as [->|Hc]; simpl.
  - apply IH.
  - apply Ascii.eqb_neq in Hc. rewrite Hc. apply IH.
Qed.

Lemma firstLine_oneLine s : oneLine (firstLine s).
Proof.
  unfold oneLine. induction s as [|c rest IH]; simpl; [reflexivity|].
  destruct (Ascii.eqb c (ascii_of_nat 10)) eqn:E; simpl; [reflexivity|].
  now rewrite E.
Qed.

Lemma escape_oneLine s : oneLine s -> oneLine (replaceChar "|" "\|" s).
Proof.
  unfold oneLine. induction s as [|c rest IH]; simpl; [trivial|].
  intros Hs. apply orb_false_iff in Hs. destruct Hs as [Hc Hrest].
  destruct (Ascii.eqb c "|"); simpl.
  - now apply IH.
  - rewrite Hc. now apply IH.
Qed.

(** The message cell of a row. *)
Lemma message_cell m :
  let cell := hd EmptyString (split (ascii_of_nat 10) (replaceChar "|" "\|" m)) in
  oneLine cell /\
  pipesEscaped false cell = true /\
  unescapePipes cell = firstLine m.
Proof.
  cbv zeta. rewrite hd_split_firstLine, firstLine_escape.
  split; [|split].
  - apply escape_oneLine, firstLine_oneLine.
  - apply escape_pipesEscaped.
  - apply unescape_escape.
Qed.

(** *** Lines of a text *)

Lemma hasChar_append c a b : hasChar c (a +++ b) = hasChar c a || hasChar c b.
Proof.
  induction a as [|x a IH]; simpl; [reflexivity|].
  now rewrite IH, orb_assoc.
Qed.

Lemma oneLine_append a b : oneLine a -> oneLine b -> oneLine (a +++ b).
Proof.
  unfold oneLine. intros Ha Hb. now rewrite hasChar_append, Ha, Hb.
Qed.

Lemma oneLine_cat pieces : Forall oneLine pieces -> oneLine (cat pieces).
Proof.
  induction 1 as [|x pieces Hx Hp IH]; simpl; [reflexivity|].
  now apply oneLine_append.
Qed.

Lemma oneLine_join sep pieces :
  oneLine sep -> Forall oneLine pieces -> oneLine (join sep pieces).
Proof.
  intros Hsep. induction 1 as [|x pieces Hx Hp IH]; simpl; [reflexivity|].
  destruct pieces as [|y pieces]; [exact Hx|].
  apply oneLine_append; [exact Hx|]. now apply oneLine_append.
Qed.

Lemma oneLine_sliceTo n : forall s, oneLine s -> oneLine (sliceTo n s).
Proof.
  unfold oneLine.
  induction n as [|n IH]; intros [|c s]; simpl; trivial.
  intros Hs. apply orb_false_iff in Hs. destruct Hs as [Hc Hrest].
  now rewrite Hc, IH.
Qed.

Lemma oneLine_uint d : oneLine (NilEmpty.string_of_uint d).
Proof.
  unfold oneLine. induction d; simpl; trivial.
Qed.

Lemma oneLine_number n : oneLine (numberToString n).
Proof.
  unfold numberToString, NilZero.string_of_int, NilZero.string_of_uint.
  destruct (Z.to_int n) as [d|d].
  - destruct d; try apply oneLine_uint. reflexivity.
  - change (oneLine (String "-" EmptyString +++
                     match d with
                     | Decimal.Nil => "0"%string
                     | _ => NilEmpty.string_of_uint d
                     end)).
    apply oneLine_append; [reflexivity|].
    destruct d; try apply oneLine_uint. reflexivity.
Qed.

Lemma split_oneLine s :
  oneLine s -> split (ascii_of_nat 10) s = [s].
Proof. apply split_without. Qed.

Lemma split_append_nl a b :
  oneLine a ->
  split (ascii_of_nat 10) (a +++ nl +++ b) = a :: split (ascii_of_nat 10) b.
Proof. apply split_at_first. Qed.

(** The lines of a text made by joining one-line rows are the rows. *)
Lemma split_join rows :
  rows <> [] -> Forall oneLine rows ->
  split (ascii_of_nat 10) (join nl rows) = rows.
Proof.
  intros Hne Hrows. induction Hrows as [|r rows Hr Hrows IH]; [congruence|].
  destruct rows as [|r' rows].
  - simpl. now apply split_oneLine.
  - change (join nl (r :: r' :: rows)) with (r +++ nl +++ join nl (r' :: rows)).
    rewrite split_append_nl by exact Hr.
    f_equal. apply IH. discriminate.
Qed.

(** *** The document *)

Lemma cat_at n pieces :
  cat pieces = cat (firstn n pieces) +++ cat (skipn n pieces).
Proof. now rewrite <- cat_app, firstn_skipn. Qed.

Lemma cat_cons x pieces : cat (x :: pieces) = x +++ cat pieces.
Proof. reflexivity. Qed.

(** A template literal cut around one of its pieces. *)
Lemma cat_around n m pieces x :
  nth_error (skipn m (skipn n pieces)) 0 = Some x ->
  cat pieces =
  cat (firstn n pieces) +++ cat (firstn m (skipn n pieces)) +++ x +++
  cat (skipn 1 (skipn m (skipn n pieces))).
Proof.
  intros Hx.
  rewrite (cat_at n pieces) at 1. f_equal.
  rewrite (cat_at m (skipn n pieces)) at 1. f_equal.
  destruct (skipn m (skipn n pieces)) as [|y rest]; [discriminate|].
  simpl in Hx. injection Hx as ->. reflexivity.
Qed.

Section Document.
Context `{Host}.

(** Sorting the caller's array in place does not change what a later call
    sorts it to. *)
Lemma pathsForTree_after (allPathsFlat : option (list string)) fallback :
  sortBy defaultCompare (orDefault (allPathsFlatAfter allPathsFlat) fallback) =
  sortBy defaultCompare (orDefault allPathsFlat fallback).
Proof.
  destruct allPathsFlat as [paths|]; simpl; [|reflexivity].
  apply sortBy_idempotent. apply defaultCompare_total.
Qed.

(** C5.  The document is a text that does not depend on the clock, then
    the rendering of the clock after "**Gerado em:** ", then a text that
    does not depend on the clock; the assembler always returns; and a
    second run on the same arguments, with the path array as the first
    run left it, gives the same two texts. *)
Theorem dossier_deterministic meta files commitsReviewed allPathsFlat
  packageJsonSummary envExampleContent :
  exists before after,
    before = cat ["# Dossiê do Projeto: "; owner meta; "/"; repo meta; nl; nl;
                  "**Gerado em:** "]%string /\
    (forall clock,
       buildDossierMarkdown clock meta files commitsReviewed allPathsFlat
         packageJsonSummary envExampleContent =
       Some (before +++ toLocaleString clock +++ after)) /\
    (forall clock,
       buildDossierMarkdown clock meta files commitsReviewed
         (allPathsFlatAfter allPathsFlat) packageJsonSummary envExampleContent =
       Some (before +++ toLocaleString clock +++ after)).
Proof.
  pose proof (buildAsciiTree_total
                (sortBy defaultCompare (orDefault allPathsFlat (map path files))))
    as Htree.
  destruct (buildAsciiTree
              (sortBy defaultCompare (orDefault allPathsFlat (map path files))))
    as [treeText|] eqn:Etree; [clear Htree|congruence].
  assert (Hrun : exists after, forall clock,
             buildDossierMarkdown clock meta files commitsReviewed allPathsFlat
               packageJsonSummary envExampleContent =
             Some (cat ["# Dossiê do Projeto: "; owner meta; "/"; repo meta; nl; nl;
                        "**Gerado em:** "]%string +++ toLocaleString clock +++ after)).
  { eexists. intros clock. unfold buildDossierMarkdown. rewrite Etree.
    f_equal. rewrite (cat_at 7). cbn [firstn skipn]. rewrite (cat_cons (toLocaleString clock)).
    reflexivity. }
  destruct Hrun as (after & Hrun).
  eexists. exists after. split; [reflexivity|]. split; [exact Hrun|].
  intros clock. rewrite <- Hrun.
  unfold buildDossierMarkdown. now rewrite pathsForTree_after.
Qed.

(** C6.  The commit table is its header followed by one row for each
    commit, in the order of the commits, joined by line feeds.  A row has
    the date, the first seven characters of the sha linked to the URL, the
    message cell, "+" and the additions, "/-" and the deletions, the
    number of files and the flags.  The message cell has no line feed,
    each of its "|" comes right after a backslash, and without these
    backslashes it is the first line of the message.  The flags cell is
    the placeholder when there is no flag and the flags joined by ", "
    when that is not empty.  If the dates, shas, URLs and flags have no
    line feed, the table has two header lines and then exactly the rows as
    its lines.  The document shows the table under its fourth heading. *)
Theorem commit_table_rows (commits : list CommitReview) :
  commits <> [] ->
  exists rows,
    renderCommits commits = commitsHeader +++ join nl rows /\
    Forall2
      (fun c row =>
         exists cell flagsCell,
           row = cat ["| "; toLocaleString (newDate (date c)); " | [";
                      sliceTo 7 (sha c); "]("; url c; ") | "; cell; " | ";
                      "+"; numberToString (additions c);
                      "/-"; numberToString (deletions c); " | ";
                      numberToString (filesChanged c); " | "; flagsCell; " |"]%string /\
           oneLine cell /\
           pipesEscaped false cell = true /\
           unescapePipes cell = firstLine (message c) /\
           (flags c = [] -> flagsCell = "—"%string) /\
           (join ", " (flags c) <> EmptyString -> flagsCell = join ", " (flags c)))
      commits rows /\
    ((forall c, In c commits ->
        oneLine (toLocaleString (newDate (date c))) /\ oneLine (sha c) /\
        oneLine (url c) /\ Forall oneLine (flags c)) ->
     split (ascii_of_nat 10) (renderCommits commits) =
       ["| Data | SHA | Mensagem | +/- | Arquivos | Flags |";
        "|---|---|---|---:|---:|---|"]%string ++ rows) /\
    (forall clock meta files allPathsFlat packageJsonSummary envExampleContent,
       exists before after,
         buildDossierMarkdown clock meta files (Some commits) allPathsFlat
           packageJsonSummary envExampleContent =
         Some (before +++
               cat ["## 4. Histórico de Commits  "; anchor "historico-de-commits";
                    nl; nl]%string +++
               renderCommits commits +++ after)).
Proof.
  intros Hne. exists (map commitRow commits).
  split; [reflexivity|]. split; [|split].
  - clear Hne. induction commits as [|c commits IH]; simpl; constructor; [|exact IH].
    destruct (message_cell (message c)) as (Hone & Hesc & Hun).
    exists (hd EmptyString (split (ascii_of_nat 10) (replaceChar "|" "\|" (message c)))),
           (orElse (join ", " (flags c)) "—").
    split.
    { unfold commitRow. cbn [cat fold_right].
      rewrite !append_assoc. reflexivity. }
    repeat split; trivial.
    + now intros ->.
    + intros Hflags. destruct (join ", " (flags c)); [congruence|reflexivity].
  - intros Hfields.
    assert (Hrows : Forall oneLine (map commitRow commits)).
    { apply Forall_map, Forall_forall. intros c Hin.
      destruct (Hfields c Hin) as (Hdate & Hsha & Hurl & Hflags).
      destruct (message_cell (message c)) as (Hone & _ & _).
      unfold commitRow. apply oneLine_cat.
      repeat (apply Forall_cons); try apply Forall_nil; trivial; try reflexivity.
      - now apply oneLine_sliceTo.
      - apply oneLine_cat.
        repeat (apply Forall_cons); try apply Forall_nil;
          try apply oneLine_number; reflexivity.
      - apply oneLine_number.
      - assert (Hj : oneLine (join ", " (flags c))) by (now apply oneLine_join).
        destruct (join ", " (flags c)); [reflexivity|exact Hj]. }
    unfold renderCommits, commitsHeader.
    change (cat ["| Data | SHA | Mensagem | +/- | Arquivos | Flags |"; nl;
                 "|---|---|---|---:|---:|---|"; nl]%string +++
            join nl (map commitRow commits))
      with ("| Data | SHA | Mensagem | +/- | Arquivos | Flags |" +++ nl +++
            "|---|---|---|---:|---:|---|" +++ nl +++
            join nl (map commitRow commits)).
    rewrite split_append_nl by reflexivity.
    rewrite split_append_nl by reflexivity.
    rewrite split_join; trivial.
    destruct commits; [congruence|discriminate].
  - intros clock meta files allPathsFlat packageJsonSummary envExampleContent.
    pose proof (buildAsciiTree_total
                  (sortBy defaultCompare (orDefault allPathsFlat (map path files))))
      as Htree.
    unfold buildDossierMarkdown.
    destruct (buildAsciiTree _) as [treeText|]; [clear Htree|congruence].
    destruct commits as [|c commits]; [congruence|].
    match goal with
    | |- exists before after, Some (cat ?pieces) = _ =>
      exists (cat (firstn 90 pieces)), (cat (skipn 95 pieces));
        f_equal; exact (cat_around 90 4 pieces _ eq_refl)
    end.
Qed.

End Document.

Lemma commit_table_rows_witness :
  demoCommits <> [] /\
  @renderCommits plainHost demoCommits =
  join nl ["| Data | SHA | Mensagem | +/- | Arquivos | Flags |";
           "|---|---|---|---:|---:|---|";
           "| 2024-05-01 | [0123456](https://example.org/c/1) | fix a\|b | +3/-4 | 2 | — |";
           "| 2024-05-02 | [fedcba9](https://example.org/c/2) | second | +10/-0 | 1 | large, risky |"]%string /\
  exists rows,
    List.length rows = List.length demoCommits /\
    split (ascii_of_nat 10) (@renderCommits plainHost demoCommits) =
      ["| Data | SHA | Mensagem | +/- | Arquivos | Flags |";
       "|---|---|---|---:|---:|---|"]%string ++ rows.
Proof.
  assert (Hne : demoCommits <> []) by discriminate.
  split; [exact Hne|]. split; [reflexivity|].
  destruct (@commit_table_rows plainHost demoCommits Hne)
    as (rows & _ & Hrows & Hlines & _).
  exists rows. split.
  - symmetry. exact (Forall2_length Hrows).
  - apply Hlines. intros c [<-|[<-|[]]]; repeat split; repeat constructor.
Defined.

End MarkdownProofs.

(** ** The PDF endpoint *)

Module PdfProofs.
Import Js Markdown PdfRoute PdfSpec.
Import MarkdownProofs (append_assoc, append_nil_r).

(** *** The file name *)

Section Runs.
Variable inClass : ascii -> bool.
Variable by_ : string.

#[local] Abbreviation piece := (fun r : bool * string => if fst r then by_ else snd r).

(** The matcher replaces run by run. *)
Lemma replaceRuns_runs s :
  replaceRuns inClass by_ s = cat (map piece (runs inClass s)) /\
  skipRun inClass by_ s =
  match runs inClass s with
  | (true, _) :: more => cat (map piece more)
  | rs => cat (map piece rs)
  end.
Proof.
  induction s as [|c rest [IHr IHs]]; [split; reflexivity|].
  simpl. rewrite IHr, IHs.
  destruct (inClass c) eqn:Ec;
    destruct (runs inClass rest) as [|[[|] run] more]; simpl; split; reflexivity.
Qed.

Lemma runs_cat s : cat (map snd (runs inClass s)) = s.
Proof.
  induction s as [|c rest IH]; [reflexivity|].
  simpl. destruct (runs inClass rest) as [|[b run] more].
  - simpl in *. now rewrite <- IH.
  - destruct (Bool.eqb b (inClass c)); simpl in *; now rewrite IH.
Qed.

Lemma runs_classes s :
  Forall (fun r => snd r <> EmptyString /\ allOfClass inClass (fst r) (snd r))
         (runs inClass s).
Proof.
  induction s as [|c rest IH]; [constructor|].
  simpl. destruct (runs inClass rest) as [|[b run] more].
  - repeat constructor. discriminate.
  - inversion IH as [|? ? [Hne Hall] Hmore]; subst.
    destruct (Bool.eqb b (inClass c)) eqn:E.
    + apply Bool.eqb_prop in E. subst b.
      constructor; [|exact Hmore]. simpl. repeat split; trivial. discriminate.
    + constructor; [|exact IH]. simpl. repeat split. discriminate.
Qed.

Lemma runs_alternating s : alternating (runs inClass s).
Proof.
  induction s as [|c rest IH]; [exact I|].
  simpl. destruct (runs inClass rest) as [|[b run] more]; [exact I|].
  destruct (Bool.eqb b (inClass c)) eqn:E.
  - destruct more; [exact I|]. exact IH.
  - split; [|exact IH]. simpl. apply Bool.eqb_false_iff in E. congruence.
Qed.

End Runs.

Lemma between_spec lo hi c :
  between lo hi c = true <->
  (nat_of_ascii lo <= nat_of_ascii c <= nat_of_ascii hi)%nat.
Proof.
  unfold between. rewrite andb_true_iff, !Nat.leb_le. tauto.
Qed.

Lemma eqb_code c d :
  Ascii.eqb c d = true <-> nat_of_ascii c = nat_of_ascii d.
Proof.
  rewrite Ascii.eqb_eq. split; [now intros ->|].
  intros E. rewrite <- (ascii_nat_embedding c), <- (ascii_nat_embedding d).
  now rewrite E.
Qed.

Lemma unsafeChar_allowed c : unsafeChar c = false <-> allowed c.
Proof.
  unfold unsafeChar, allowed, isLower, isUpper, isDigit.
  rewrite negb_false_iff, !orb_true_iff, !between_spec, !eqb_code.
  cbv zeta. change (nat_of_ascii "a") with 97%nat. change (nat_of_ascii "z") with 122%nat.
  change (nat_of_ascii "A") with 65%nat. change (nat_of_ascii "Z") with 90%nat.
  change (nat_of_ascii "0") with 48%nat. change (nat_of_ascii "9") with 57%nat.
  change (nat_of_ascii "_") with 95%nat. change (nat_of_ascii "-") with 45%nat.
  change (nat_of_ascii ".") with 46%nat.
  tauto.
Qed.

(** *** The handler *)

Lemma destructure_value value :
  value <> JNull ->
  destructure value =
  Ok (getProp value "markdown",
      match getProp value "title" with
      | Some t => t
      | None => JString "dossie"
      end).
Proof. destruct value; trivial. congruence. Qed.

(** A request without a truthy [markdown] is answered with 400 and
    nothing is done to the outside. *)
Lemma POST_falsy env value :
  value <> JNull ->
  truthy (getProp value "markdown") = false ->
  POST env (Ok value) = (markdownRequired, []).
Proof.
  intros Hnull Hfalsy.
  unfold POST, POST_try, bind, lift. rewrite (destructure_value value Hnull).
  cbn [fst snd]. now rewrite Hfalsy.
Qed.

(** C7, as the code has it.  A request whose body is a JSON value other
    than [null] without a [markdown] member, the empty object among them,
    is answered with status 400 and the text "markdown required", and
    nothing is done to the outside.  A request whose body is not a JSON
    text, a body of length zero among them, or whose body is [null], is
    answered with status 500 and the text "PDF error: " followed by the
    message of the error; the message is logged and no browser is
    launched. *)
Theorem pdf_markdown_required :
  (forall env value,
     value <> JNull ->
     getProp value "markdown" = None ->
     POST env (Ok value) = (markdownRequired, [])) /\
  (forall env, POST env (Ok (JObject [])) = (markdownRequired, [])) /\
  (forall env e,
     POST env (Throw e) =
     (mkResponse 500 [] (BodyText ("PDF error: " +++ err_message e)),
      [EvConsoleError (err_message e)])) /\
  (forall env,
     POST env (Ok JNull) =
     (mkResponse 500 [] (BodyText ("PDF error: " +++ err_message destructureNull)),
      [EvConsoleError (err_message destructureNull)])) /\
  (forall env req, noMarkdown req -> ~ launched (snd (POST env req))).
Proof.
  assert (H400 : forall env value,
             value <> JNull -> getProp value "markdown" = None ->
             POST env (Ok value) = (markdownRequired, [])).
  { intros env value Hnull Hnone. apply POST_falsy; trivial. now rewrite Hnone. }
  split; [exact H400|]. split; [|split; [|split]].
  - intros env. now apply H400.
  - reflexivity.
  - reflexivity.
  - intros env [value|e] Hno [l Hin].
    + destruct value; try (rewrite H400 in Hin; [destruct Hin|discriminate|exact Hno]).
      simpl in Hin. destruct Hin as [E|[]]. discriminate.
    + simpl in Hin. destruct Hin as [E|[]]. discriminate.
Qed.

Lemma pdf_markdown_required_witness :
  JArray [JNumber 1] <> JNull /\
  getProp (JArray [JNumber 1]) "markdown" = None /\
  POST okEnv (Ok (JArray [JNumber 1])) = (markdownRequired, []).
Proof.
  assert (Hnull : JArray [JNumber 1] <> JNull) by discriminate.
  split; [exact Hnull|]. split; [reflexivity|].
  exact (proj1 pdf_markdown_required okEnv (JArray [JNumber 1]) Hnull eq_refl).
Defined.

(** C7 as it is stated fails at a body of length zero and at the
    body [null]: neither supplies [markdown], and both are answered with
    status 500. *)
Lemma pdf_markdown_required_counterexample :
  noMarkdown emptyBodyRequest /\
  fst (POST okEnv emptyBodyRequest) =
    mkResponse 500 [] (BodyText "PDF error: Unexpected end of JSON input") /\
  fst (POST okEnv emptyBodyRequest) <> markdownRequired /\
  noMarkdown (Ok JNull) /\
  status (fst (POST okEnv (Ok JNull))) = 500.
Proof.
  repeat split; try reflexivity. discriminate.
Qed.

(** C9.  A request whose [markdown] is the empty string is answered like
    one without [markdown]: status 400, the text "markdown required", and
    nothing is done to the outside, so no PDF is made. *)
Theorem pdf_empty_markdown env value :
  getProp value "markdown" = Some (JString EmptyString) ->
  POST env (Ok value) = (markdownRequired, []) /\
  POST env (Ok value) = POST env (Ok (JObject [])).
Proof.
  intros Hmd.
  assert (Hnull : value <> JNull) by (intros ->; discriminate).
  assert (H400 : POST env (Ok value) = (markdownRequired, [])).
  { apply POST_falsy; trivial. now rewrite Hmd. }
  split; [exact H400|]. rewrite H400. symmetry.
  apply POST_falsy; [discriminate|reflexivity].
Qed.

Lemma pdf_empty_markdown_witness :
  POST okEnv (Ok (JObject [("title", JString "x"); ("markdown", JString "")]%string)) =
  (markdownRequired, []).
Proof.
  exact (proj1 (pdf_empty_markdown okEnv
                  (JObject [("title", JString "x"); ("markdown", JString "")]%string)
                  eq_refl)).
Defined.

(** C8.  [sanitizeFileName] replaces every maximal run of characters
    outside the allowlist by one underscore: the title is cut into its
    runs, which are not empty, are each within or each outside the
    allowlist, alternate, and make up the title; the runs outside become
    "_" and the others stay.  The allowlist is the ASCII letters, the
    digits, "_", "-" and ".".  The title "Q1 Report/2024" gives
    "Q1_Report_2024".  When every step of the export succeeds, the response
    has the sanitized title followed by ".pdf" as the file name of its
    attachment. *)
Theorem file_name_sanitized :
  (forall title, sanitizeFileName title = replaceEachRun unsafeChar "_" title) /\
  (forall title,
     cat (map snd (runs unsafeChar title)) = title /\
     Forall (fun r => snd r <> EmptyString /\ allOfClass unsafeChar (fst r) (snd r))
            (runs unsafeChar title) /\
     alternating (runs unsafeChar title)) /\
  (forall c, unsafeChar c = false <-> allowed c) /\
  sanitizeFileName "Q1 Report/2024" = "Q1_Report_2024"%string /\
  (forall env value title body launcher pdf,
     truthy (getProp value "markdown") = true ->
     getProp value "title" = Some (JString title) ->
     md_render env (getProp value "markdown") = Ok body ->
     getBrowserLauncher env = Ok launcher ->
     puppeteer_launch env launcher = Ok tt ->
     browser_newPage env = Ok tt ->
     page_setContent env (pageHtml (escapeHtmlString title) body) = Ok tt ->
     page_emulateMediaType env "screen" = Ok tt ->
     page_pdf env (pageHtml (escapeHtmlString title) body) = Ok pdf ->
     browser_close env = Ok tt ->
     fst (POST env (Ok value)) =
     mkResponse 200
       [("Content-Type", "application/pdf");
        ("Content-Disposition",
         "attachment; filename=" +++ dq +++ sanitizeFileName title +++ ".pdf" +++ dq);
        ("Cache-Control", "no-store")]%string
       (BodyBlob "application/pdf" pdf)).
Proof.
  split; [|split; [|split; [|split]]].
  - intros title. apply replaceRuns_runs.
  - intros title. split; [apply runs_cat|]. split; [apply runs_classes|apply runs_alternating].
  - apply unsafeChar_allowed.
  - reflexivity.
  - intros env value title body launcher pdf
           Hmd Htitle Hrender Hlauncher Hlaunch Hpage Hset Hmedia Hpdf Hclose.
    assert (Hnull : value <> JNull) by (intros ->; discriminate).
    unfold POST, POST_try, bind, lift, call, ret.
    rewrite (destructure_value value Hnull). cbn [fst snd].
    rewrite Hmd, Htitle. cbn [negb escapeHtml].
    rewrite Hrender, Hlauncher, Hlaunch, Hpage, Hset, Hmedia, Hpdf, Hclose.
    reflexivity.
Qed.

Lemma file_name_sanitized_witness :
  fst (POST okEnv (Ok (JObject [("markdown", JString "# Hi");
                                ("title", JString "Q1 Report/2024")]%string))) =
  mkResponse 200
    [("Content-Type", "application/pdf");
     ("Content-Disposition",
      "attachment; filename=" +++ dq +++ "Q1_Report_2024.pdf" +++ dq);
     ("Cache-Control", "no-store")]%string
    (BodyBlob "application/pdf" [37; 80; 68; 70]).
Proof.
  exact (proj2 (proj2 (proj2 (proj2 file_name_sanitized))) okEnv
           (JObject [("markdown", JString "# Hi");
                     ("title", JString "Q1 Report/2024")]%string)
           "Q1 Report/2024"%string "<h1>Hi</h1>"%string
           (mkLauncher "/usr/bin/chromium" []) [37; 80; 68; 70]
           eq_refl eq_refl eq_refl eq_refl eq_refl eq_refl eq_refl eq_refl
           eq_refl eq_refl).
Defined.

End PdfProofs.

(** ** More of the tree endpoint *)

Module ExtraTree.
Import Js TreeRoute TreeSpec ExtraSpec.
Import TreeProofs (walk_fuel_step, walk_throws_normalized).

Lemma walkEntries_app recur pre rest : forall out,
  walkEntries recur (pre ++ rest) out =
  match walkEntries recur pre out with
  | Some (Ok nodes) => walkEntries recur rest nodes
  | other => other
  end.
Proof.
  induction pre as [|e pre IH]; intros out; simpl; [reflexivity|].
  destruct (String.eqb (e_type e) "dir").
  - destruct (recur (e_path e)) as [[sub|err]|]; trivial.
  - destruct (String.eqb (e_type e) "file"); trivial.
Qed.

(** An error that went through the [catch] of [walk] goes through the
    next one unchanged. *)
Lemma normalize_normalize err : normalize (normalize err) = normalize err.
Proof. reflexivity. Qed.

(** X1.  The walk gives no partial result: when a directory of a listing
    cannot be walked, the call on the listing throws the very error of
    the call on that directory, the nodes collected so far are dropped,
    and the entries after it do not matter. *)
Theorem walk_fails_fast octokit fuel owner repo path depth data pre e post before err :
  depth <= MAX_DEPTH ->
  getContent octokit owner repo path = Ok data ->
  entriesOf data = pre ++ e :: post ->
  e_type e = "dir"%string ->
  walkEntries (fun p => walk_fuel (Ok octokit) fuel owner repo p (depth + 1)) pre [] =
    Some (Ok before) ->
  walk_fuel (Ok octokit) fuel owner repo (e_path e) (depth + 1) = Some (Throw err) ->
  walk_fuel (Ok octokit) (S fuel) owner repo path depth = Some (Throw err).
Proof.
  intros Hd Hdata Hsplit Hdir Hpre Hfail.
  rewrite (walk_fuel_step _ _ _ _ _ _ data Hd Hdata), Hsplit.
  rewrite walkEntries_app, Hpre. simpl. rewrite Hdir, Hfail. simpl.
  destruct (walk_throws_normalized _ _ _ _ _ _ _ Hfail) as (p & err0 & _ & ->).
  now rewrite normalize_normalize.
Qed.

Lemma walk_fails_fast_witness :
  walk_fuel (Ok brokenOctokit) (fuelFor 0) "o" "r" "" 0 =
  Some (Throw (newError "boom")).
Proof.
  apply (walk_fails_fast brokenOctokit 7 "o" "r" "" 0
           (ContentArray [mkEntry "file" "a" (Some 1); mkEntry "dir" "b" None;
                          mkEntry "dir" "c" None])
           [mkEntry "file" "a" (Some 1)] (mkEntry "dir" "b" None)
           [mkEntry "dir" "c" None] [mkNode "a" file (Some 1)])%string.
  - unfold MAX_DEPTH. lia.
  - reflexivity.
  - reflexivity.
  - reflexivity.
  - reflexivity.
  - reflexivity.
Defined.

Lemma walkEntries_listed recur entries : forall out,
  walkEntries recur (filter listed entries) out = walkEntries recur entries out.
Proof.
  induction entries as [|e rest IH]; intros out; simpl; [reflexivity|].
  unfold listed at 1.
  destruct (String.eqb (e_type e) "dir") eqn:Edir; simpl.
  - rewrite Edir. destruct (recur (e_path e)) as [[sub|err]|]; trivial.
  - destruct (String.eqb (e_type e) "file") eqn:Efile; simpl; [|apply IH].
    rewrite Edir, Efile. apply IH.
Qed.

Lemma walkEntries_ext recur recur' entries : forall out,
  (forall p, recur p = recur' p) ->
  walkEntries recur entries out = walkEntries recur' entries out.
Proof.
  induction entries as [|e rest IH]; intros out Hext; simpl; [reflexivity|].
  rewrite Hext.
  destruct (String.eqb (e_type e) "dir").
  - destruct (recur' (e_path e)) as [[sub|err]|]; auto.
  - destruct (String.eqb (e_type e) "file"); auto.
Qed.

(** X2.  Entries that are neither files nor directories leave no trace in the
    walk: taking them out of every listing gives the same result, nodes
    or error. *)
Theorem walk_skips_other_entries octokit fuel : forall owner repo path depth,
  walk_fuel (Ok (withoutOthers octokit)) fuel owner repo path depth =
  walk_fuel (Ok octokit) fuel owner repo path depth.
Proof.
  induction fuel as [|fuel IH]; intros owner repo path depth; [reflexivity|].
  simpl. destruct (MAX_DEPTH <? depth); [reflexivity|].
  destruct (getContent octokit owner repo path) as [data|err]; [|reflexivity].
  f_equal. simpl entriesOf. rewrite walkEntries_listed.
  apply walkEntries_ext. intros p. apply IH.
Qed.

End ExtraTree.

(** ** More of the dossier assembler *)

Module ExtraMarkdown.
Import Js Markdown MarkdownSpec ExtraSpec.
Import MarkdownProofs (append_assoc, sortBy_perm, sortBy_sorted, sortBy_idempotent,
  sortBy_In, defaultCompare_total, defaultCompare_utf16, compareUnits_total, plainHost_total, plainHost_strict, plainHost_transitive,
  mapGet_mapSet_same, insertParts_cons, buildTrie_member, split_at_first,
  oneLine_append).

(** *** Paths and their segments *)

Lemma split_nonempty sep s : split sep s <> [].
Proof.
  destruct s as [|c rest]; simpl; [discriminate|].
  destruct (Ascii.eqb c sep); [discriminate|].
  destruct (split sep rest); discriminate.
Qed.

Lemma split_app_sep sep a b :
  split sep (a +++ String sep b) = split sep a ++ split sep b.
Proof.
  induction a as [|c a IH]; simpl.
  - now rewrite Ascii.eqb_refl.
  - destruct (Ascii.eqb c sep); [now rewrite IH|].
    rewrite IH. pose proof (split_nonempty sep a) as Hne.
    destruct (split sep a); [congruence|reflexivity].
Qed.

(** X3.  The segments of a path made of two parts around a slash are the
    segments of the first part followed by those of the second; so a
    slash at either end and a doubled slash add nothing. *)
Theorem partsOf_slash :
  (forall a b, partsOf (a +++ "/" +++ b) = partsOf a ++ partsOf b) /\
  (forall b, partsOf ("/" +++ b) = partsOf b) /\
  (forall a, partsOf (a +++ "/") = partsOf a) /\
  (forall a b, partsOf (a +++ "//" +++ b) = partsOf (a +++ "/" +++ b)).
Proof.
  assert (Hlaw : forall a b, partsOf (a +++ "/" +++ b) = partsOf a ++ partsOf b).
  { intros a b. unfold partsOf.
    change ("/" +++ b) with (String "/" b).
    now rewrite split_app_sep, filter_app. }
  split; [exact Hlaw|]. split; [|split].
  - intros b. apply (Hlaw EmptyString b).
  - intros a. change (a +++ "/") with (a +++ "/" +++ EmptyString).
    rewrite Hlaw. apply app_nil_r.
  - intros a b. change ("//" +++ b) with ("/" +++ "/" +++ b).
    now rewrite !Hlaw.
Qed.

Lemma split_clean sep s :
  Forall (fun piece => hasChar sep piece = false) (split sep s).
Proof.
  induction s as [|c rest IH]; simpl; [repeat constructor|].
  destruct (Ascii.eqb c sep) eqn:E; [now constructor|].
  destruct (split sep rest) as [|piece pieces]; [repeat constructor; simpl; now rewrite E|].
  inversion IH; subst. constructor; trivial. simpl. now rewrite E.
Qed.

(** X4.  A segment of a path is never empty and never has a slash, so the
    names in the trie are plain names. *)
Theorem partsOf_clean p :
  Forall (fun part => part <> EmptyString /\ hasChar "/" part = false) (partsOf p).
Proof.
  unfold partsOf. apply Forall_forall. intros part Hin.
  apply filter_In in Hin. destruct Hin as [Hin Hne]. split.
  - now destruct part.
  - pose proof (split_clean "/" p) as Hclean.
    rewrite Forall_forall in Hclean. now apply Hclean.
Qed.

(** *** Paths the trie has already *)

Lemma mapSet_same {V : Type} (k : string) (v : V) m :
  mapGet k m = Some v -> mapSet k v m = m.
Proof.
  induction m as [|[k' v'] m IH]; simpl; [discriminate|].
  destruct (String.eqb_spec k' k) as [->|Hne].
  - now intros [= ->].
  - intros Hget. now rewrite IH.
Qed.

Lemma insertParts_member parts : forall t,
  member parts t -> insertParts parts t = t.
Proof.
  induction parts as [|part rest IH]; intros t Hm; [reflexivity|].
  rewrite insertParts_cons. unfold member in Hm. simpl in Hm. unfold childOr.
  destruct (mapGet part (children t)) as [child|] eqn:Hget; [|congruence].
  rewrite (IH child Hm), (mapSet_same _ _ _ Hget). now destruct t.
Qed.

Lemma buildTrie_app paths more :
  buildTrie (paths ++ more) =
  fold_left (fun root p => insertParts (partsOf p) root) more (buildTrie paths).
Proof. apply fold_left_app. Qed.

(** X5.  Whatever the collation, a path adds nothing to the tree when an
    earlier path of the list is the same path or goes through it. *)
Theorem known_path_adds_nothing `{Host} paths p more :
  (exists p', In p' paths /\ isPrefix (partsOf p) (partsOf p')) ->
  buildTrie (paths ++ p :: more) = buildTrie (paths ++ more) /\
  buildAsciiTree (paths ++ p :: more) = buildAsciiTree (paths ++ more).
Proof.
  intros Hknown.
  assert (Htrie : buildTrie (paths ++ p :: more) = buildTrie (paths ++ more)).
  { rewrite !buildTrie_app. simpl. rewrite insertParts_member; [reflexivity|].
    apply buildTrie_member. now right. }
  split; [exact Htrie|].
  destruct Hknown as (p' & Hin & _).
  destruct paths as [|q paths]; [destruct Hin|].
  unfold buildAsciiTree. cbn [app] in *. now rewrite Htrie.
Qed.

Lemma known_path_adds_nothing_witness :
  @buildAsciiTree plainHost ["src/a.ts"; "src"; "b"; "/src//a.ts"]%string =
  @buildAsciiTree plainHost ["src/a.ts"; "b"; "/src//a.ts"]%string.
Proof.
  apply (@known_path_adds_nothing plainHost ["src/a.ts"]%string "src"%string
           ["b"; "/src//a.ts"]%string).
  exists "src/a.ts"%string. split; [now left|]. simpl. auto.
Defined.

(** *** The order of the path list *)

Lemma sorted_perm_eq {A : Type} (le : A -> A -> Prop)
  (Hanti : forall a b, le a b -> le b a -> a = b) (l1 : list A) : forall l2,
  StronglySorted le l1 -> StronglySorted le l2 -> Permutation l1 l2 -> l1 = l2.
Proof.
  induction l1 as [|x l1 IH]; intros l2 Hs1 Hs2 Hperm.
  - apply Permutation_nil in Hperm. now subst.
  - destruct l2 as [|y l2].
    + apply Permutation_sym, Permutation_nil in Hperm. discriminate.
    + inversion Hs1 as [|? ? Hs1' Hx]; inversion Hs2 as [|? ? Hs2' Hy]; subst.
      rewrite Forall_forall in Hx, Hy.
      assert (Hxy : x = y).
      { destruct (Permutation_in x Hperm (or_introl eq_refl)) as [E|Hin];
          [now symmetry|].
        destruct (Permutation_in y (Permutation_sym Hperm) (or_introl eq_refl))
          as [E|Hin']; [exact E|].
        apply Hanti; [now apply Hx|now apply Hy]. }
      subst y. f_equal. apply IH; trivial.
      now apply Permutation_cons_inv in Hperm.
Qed.

(** The order of the array does not show after [sort()]. *)
Lemma defaultSort_perm l1 l2 :
  Permutation l1 l2 -> sortBy defaultCompare l1 = sortBy defaultCompare l2.
Proof.
  intros Hperm.
  apply (sorted_perm_eq (leBy defaultCompare)).
  - intros a b. apply plainHost_strict.
  - apply Sorted_StronglySorted.
    + intros a b c. apply plainHost_transitive.
    + apply sortBy_sorted. apply defaultCompare_total.
  - apply Sorted_StronglySorted.
    + intros a b c. apply plainHost_transitive.
    + apply sortBy_sorted. apply defaultCompare_total.
  - rewrite sortBy_perm, Hperm. symmetry. apply sortBy_perm.
Qed.

(** X6.  Whatever the collation, the document does not depend on the order of
    the paths in [allPathsFlat]: they are sorted by code units before the
    tree is drawn. *)
Theorem dossier_path_order `{Host} clock meta files commitsReviewed paths1 paths2
  packageJsonSummary envExampleContent :
  Permutation paths1 paths2 ->
  buildDossierMarkdown clock meta files commitsReviewed (Some paths1)
    packageJsonSummary envExampleContent =
  buildDossierMarkdown clock meta files commitsReviewed (Some paths2)
    packageJsonSummary envExampleContent.
Proof.
  intros Hperm. unfold buildDossierMarkdown. simpl orDefault.
  now rewrite (defaultSort_perm _ _ Hperm).
Qed.

Lemma dossier_path_order_witness :
  @buildDossierMarkdown canonicalHost "now"%string
    (mkMeta "acme" "demo" None None None None) [] None
    (Some [eAcuteComposed; eAcuteDecomposed]) None None =
  @buildDossierMarkdown canonicalHost "now"%string
    (mkMeta "acme" "demo" None None None None) [] None
    (Some [eAcuteDecomposed; eAcuteComposed]) None None.
Proof.
  apply (@dossier_path_order canonicalHost). apply perm_swap.
Defined.

Lemma insertBy_map {A B : Type} (f : A -> B) cmpA cmpB x l :
  (forall y, In y l -> cmpB (f x) (f y) = cmpA x y) ->
  insertBy cmpB (f x) (map f l) = map f (insertBy cmpA x l).
Proof.
  induction l as [|y l IH]; intros Hcmp; simpl; [reflexivity|].
  rewrite (Hcmp y) by now left.
  destruct (cmpA x y <=? 0); [reflexivity|].
  simpl. f_equal. apply IH. intros z Hz. apply Hcmp. now right.
Qed.

Lemma sortBy_map {A B : Type} (f : A -> B) cmpA cmpB l :
  (forall x y, In x l -> In y l -> cmpB (f x) (f y) = cmpA x y) ->
  sortBy cmpB (map f l) = map f (sortBy cmpA l).
Proof.
  induction l as [|x l IH]; intros Hcmp; simpl; [reflexivity|].
  rewrite IH by (intros y z Hy Hz; apply Hcmp; now right).
  apply insertBy_map. intros y Hy. apply sortBy_In in Hy.
  apply Hcmp; [now left|now right].
Qed.



(** *** Anchors *)

Lemma allChars_append ok a b :
  allChars ok (a +++ b) = allChars ok a && allChars ok b.
Proof.
  induction a as [|c a IH]; simpl; [reflexivity|].
  now rewrite IH, andb_assoc.
Qed.

(** What the matcher writes is made of the characters it keeps and of the
    replacement. *)
Lemma replaceRuns_chars inClass by_ ok s :
  (forall c, inClass c = false -> ok c = true) ->
  allChars ok by_ = true ->
  allChars ok (replaceRuns inClass by_ s) = true /\
  allChars ok (skipRun inClass by_ s) = true.
Proof.
  intros Hkeep Hby. induction s as [|c rest [IHr IHs]]; [split; reflexivity|].
  simpl. destruct (inClass c) eqn:Ec.
  - split; [|exact IHs]. now rewrite allChars_append, Hby, IHs.
  - simpl. now rewrite (Hkeep c Ec), IHr.
Qed.

Lemma slug_runs s :
  noTwice "-" (replaceRuns notLowerAlnum "-" s) = true /\
  noTwice "-" (skipRun notLowerAlnum "-" s) = true /\
  startsWith "-" (skipRun notLowerAlnum "-" s) = false.
Proof.
  induction s as [|c rest (IHr & IHs & IHh)]; [repeat split|].
  simpl. destruct (notLowerAlnum c) eqn:Ec.
  - simpl. rewrite IHh, IHs. repeat split; trivial.
  - assert (Hc : Ascii.eqb c "-" = false).
    { destruct (Ascii.eqb_spec c "-") as [->|]; [discriminate|reflexivity]. }
    simpl. now rewrite Hc, IHr.
Qed.

(** X8.  Whatever the case mapping of the host, an anchor is made of
    lower-case ASCII letters, digits and hyphens only, and never has two
    hyphens in a row. *)
Theorem slug_alphabet `{Host} s :
  allChars anchorChar (slug s) = true /\ noTwice "-" (slug s) = true.
Proof.
  unfold slug. split.
  - apply replaceRuns_chars; [|reflexivity].
    intros c Hc. unfold notLowerAlnum in Hc. apply negb_false_iff in Hc.
    unfold anchorChar. now rewrite Hc.
  - apply slug_runs.
Qed.

(** *** Language tags *)

Lemma lastOf_app xs ys : ys <> [] -> lastOf (xs ++ ys) = lastOf ys.
Proof.
  intros Hne. induction xs as [|x xs IH]; [reflexivity|].
  simpl. destruct (xs ++ ys) eqn:E; [|exact IH].
  destruct xs; simpl in E; congruence.
Qed.

(** X9.  The tag of a code block depends only on what follows the last dot of
    the path, and is one of the eleven tags or none. *)
Theorem guessLang_extension `{Host} :
  (forall a b, guessLang (a +++ "." +++ b) = guessLang b) /\
  (forall path, In (guessLang path) languageTags).
Proof.
  split.
  - intros a b. unfold guessLang.
    change ("." +++ b) with (String "." b).
    rewrite split_app_sep, lastOf_app; [reflexivity|apply split_nonempty].
  - intros path. unfold guessLang, languageTags.
    repeat match goal with
           | |- context [if ?c then _ else _] => destruct c
           end; simpl; tauto.
Qed.

(** *** Code blocks *)

(** X10.  The lines of a code block are the opening fence with its tag, the
    lines of the content as they are, and the closing fence: nothing of
    the content is escaped or cut. *)
Theorem fence_lines lang content :
  oneLine lang ->
  split (ascii_of_nat 10) (fence lang content) =
  (bq3 +++ lang) :: split (ascii_of_nat 10) content ++ [bq3].
Proof.
  intros Hlang.
  assert (Htag : (if nonEmpty lang then lang else EmptyString) = lang)
    by now destruct lang.
  unfold fence. rewrite Htag.
  change (join nl [bq3 +++ lang; content; bq3])
    with ((bq3 +++ lang) +++ String (ascii_of_nat 10)
            (content +++ String (ascii_of_nat 10) bq3)).
  rewrite split_at_first.
  - now rewrite split_app_sep.
  - apply oneLine_append; [reflexivity|exact Hlang].
Qed.

Lemma fence_lines_witness :
  split (ascii_of_nat 10) (fence "ts" ("let a = 1;" +++ nl +++ "```" +++ nl +++ "b")) =
  ["```ts"; "let a = 1;"; "```"; "b"; "```"]%string.
Proof.
  exact (fence_lines "ts" ("let a = 1;" +++ nl +++ "```" +++ nl +++ "b") eq_refl).
Defined.

(** *** Dependency tables *)

(** X11.  A dependency table lists every package of the record once, in the
    order of the collation, one row each; an empty record gives the
    placeholder instead of a table. *)
Theorem mkTable_rows `{Host} (Htotal : CollationTotal) title entries :
  entries <> [] ->
  exists sorted,
    Permutation sorted entries /\
    Sorted nameLe sorted /\
    mkTable title entries =
    cat ["**"; title; "**"; nl; nl; "| Pacote | Versão |"; nl; "|---|---|"; nl;
         join nl (map (fun kv : string * string =>
                         cat ["| "; fst kv; " | "; snd kv; " |"]) sorted);
         nl]%string /\
    mkTable title [] = cat ["**"; title; "**"; nl; nl; "_—_"; nl]%string.
Proof.
  intros Hne. exists (sortBy byName entries).
  split; [apply sortBy_perm|]. split.
  - apply (sortBy_sorted byName). intros a b. apply Htotal.
  - split; [|reflexivity]. destruct entries; [congruence|reflexivity].
Qed.

Lemma mkTable_rows_witness :
  exists sorted,
    Permutation sorted [("react", "18.2.0"); ("next", "14.1.0")]%string /\
    @Sorted _ (@nameLe plainHost string) sorted /\
    @mkTable plainHost "Dependencies" [("react", "18.2.0"); ("next", "14.1.0")]%string =
    cat ["**"; "Dependencies"; "**"; nl; nl; "| Pacote | Versão |"; nl; "|---|---|"; nl;
         join nl (map (fun kv : string * string =>
                         cat ["| "; fst kv; " | "; snd kv; " |"]) sorted);
         nl]%string /\
    @mkTable plainHost "Dependencies" [] =
    cat ["**"; "Dependencies"; "**"; nl; nl; "_—_"; nl]%string.
Proof.
  apply (@mkTable_rows plainHost plainHost_total). discriminate.
Defined.

End ExtraMarkdown.

(** ** More of the PDF endpoint *)

Module ExtraPdf.
Import Js Markdown PdfRoute PdfSpec ExtraSpec.
Import ExtraMarkdown (allChars_append, replaceRuns_chars).

(** *** File names and titles *)

Lemma replaceRuns_fixed inClass by_ s :
  allChars (fun c => negb (inClass c)) s = true ->
  replaceRuns inClass by_ s = s.
Proof.
  induction s as [|c rest IH]; simpl; [reflexivity|].
  intros Hs. apply andb_true_iff in Hs. destruct Hs as [Hc Hrest].
  apply negb_true_iff in Hc. now rewrite Hc, IH.
Qed.

(** X12.  A sanitized name is made of characters of the allowlist only; a name
    that is so already is left as it is, so sanitizing twice changes
    nothing more. *)
Theorem sanitizeFileName_safe s :
  allChars (fun c => negb (unsafeChar c)) (sanitizeFileName s) = true /\
  (allChars (fun c => negb (unsafeChar c)) s = true -> sanitizeFileName s = s) /\
  sanitizeFileName (sanitizeFileName s) = sanitizeFileName s.
Proof.
  assert (Hsafe : forall t,
             allChars (fun c => negb (unsafeChar c)) (sanitizeFileName t) = true).
  { intros t. apply replaceRuns_chars; [|reflexivity].
    intros c Hc. now rewrite Hc. }
  split; [apply Hsafe|]. split.
  - apply replaceRuns_fixed.
  - apply replaceRuns_fixed, Hsafe.
Qed.

Lemma sanitizeFileName_safe_witness :
  sanitizeFileName "Q1_Report-2024.v2" = "Q1_Report-2024.v2"%string.
Proof.
  exact (proj1 (proj2 (sanitizeFileName_safe "Q1_Report-2024.v2")) eq_refl).
Defined.

(** X13.  An escaped title has no "<", ">" or quote left, so it cannot close
    the title element or an attribute; a title without the five
    characters is left as it is. *)
Theorem escapeHtml_safe s :
  allChars (fun c => negb (breakingChar c)) (escapeHtmlString s) = true /\
  (allChars (fun c => negb (markupChar c)) s = true -> escapeHtmlString s = s).
Proof.
  split.
  - induction s as [|c rest IH]; simpl; [reflexivity|].
    rewrite allChars_append, IH, andb_true_r.
    unfold breakingChar.
    destruct (Ascii.eqb c "&"); [reflexivity|].
    destruct (Ascii.eqb c "<") eqn:E1; [reflexivity|].
    destruct (Ascii.eqb c ">") eqn:E2; [reflexivity|].
    destruct (Ascii.eqb c (ascii_of_nat 34)) eqn:E3; [reflexivity|].
    destruct (Ascii.eqb c "'") eqn:E4; [reflexivity|].
    simpl. now rewrite E1, E2, E3, E4.
  - induction s as [|c rest IH]; simpl; [reflexivity|].
    intros Hs. apply andb_true_iff in Hs. destruct Hs as [Hc Hrest].
    unfold markupChar in Hc. apply negb_true_iff in Hc.
    repeat (apply orb_false_iff in Hc; destruct Hc as [Hc ?]).
    repeat match goal with H : Ascii.eqb _ _ = false |- _ => rewrite H; clear H end.
    simpl. now rewrite IH.
Qed.

Lemma escapeHtml_safe_witness :
  escapeHtmlString "Q1 Report/2024" = "Q1 Report/2024"%string.
Proof.
  exact (proj2 (escapeHtml_safe "Q1 Report/2024") eq_refl).
Defined.

(** *** The handler *)

(** One step of the case analysis of a run of the handler. *)
Ltac step_run :=
  match goal with
  | |- context [match ?x with _ => _ end] =>
    lazymatch x with
    | context [match _ with _ => _ end] => fail
    | _ => destruct x eqn:?
    end
  end.

(** X14.  The handler answers in one of three ways: a PDF, after the browser
    was closed; "markdown required" with status 400, with nothing done to
    the outside; or status 500 with "PDF error: " and the message of the
    failure, which is logged last. *)
Theorem POST_outcomes env req :
  (status (fst (POST env req)) = 200 /\ In EvClose (snd (POST env req))) \/
  POST env req = (markdownRequired, []) \/
  exists msg trace,
    POST env req =
    (mkResponse 500 [] (BodyText ("PDF error: " +++ msg)),
     trace ++ [EvConsoleError msg]).
Proof.
  unfold POST, POST_try, bind, lift, call, ret, markdownRequired.
  repeat step_run;
    repeat match goal with
           | H : (_, _) = (_, _) |- _ => injection H as <- <-
           end;
    try discriminate;
    try (right; right; eexists; eexists; reflexivity);
    try (right; left; reflexivity).
  left. split; [reflexivity|].
  cbn [snd]. rewrite !in_app_iff. right. now left.
Qed.

(** X15.  The browser is closed on the way to a PDF only: when it was started
    and the request then fails with status 500, though closing it would
    have worked, it is never closed. *)
Theorem browser_left_open env req launcher :
  In (EvLaunch launcher) (snd (POST env req)) ->
  puppeteer_launch env launcher = Ok tt ->
  browser_close env = Ok tt ->
  status (fst (POST env req)) = 500 ->
  ~ In EvClose (snd (POST env req)).
Proof.
  unfold POST, POST_try, bind, lift, call, ret.
  intros Hin Hlaunch Hclose.
  repeat step_run;
    repeat match goal with
           | H : (_, _) = (_, _) |- _ => injection H as <- <-
           end;
    cbn [fst snd status]; try discriminate; intros _;
    rewrite ?in_app_iff; simpl; intuition (try discriminate; try congruence).
Qed.

Lemma browser_left_open_witness :
  In (EvLaunch (mkLauncher "/usr/bin/chromium" []))
     (snd (POST failingPrintEnv (Ok (JObject [("markdown", JString "# Hi")]%string)))) /\
  ~ In EvClose
       (snd (POST failingPrintEnv (Ok (JObject [("markdown", JString "# Hi")]%string)))).
Proof.
  assert (Hin : In (EvLaunch (mkLauncher "/usr/bin/chromium" []))
                   (snd (POST failingPrintEnv
                           (Ok (JObject [("markdown", JString "# Hi")]%string))))).
  { simpl. tauto. }
  split; [exact Hin|].
  exact (browser_left_open failingPrintEnv _ _ Hin eq_refl eq_refl eq_refl).
Defined.

(** X16.  A [title] that is not a string (a number, [null], an array)
    makes the request fail with status 500 when the page is put together:
    the Markdown has been rendered by then, and no browser is looked for
    or started.  The message is that of the engine for [s.replace]:
    "Cannot read properties of null (reading 'replace')" for [null],
    "s.replace is not a function" for every other value. *)
Theorem title_not_a_string env value title body :
  truthy (getProp value "markdown") = true ->
  getProp value "title" = Some title ->
  (forall t, title <> JString t) ->
  md_render env (getProp value "markdown") = Ok body ->
  exists msg,
    POST env (Ok value) =
    (mkResponse 500 [] (BodyText ("PDF error: " +++ msg)),
     [EvRender; EvConsoleError msg]) /\
    (title = JNull ->
     msg = "Cannot read properties of null (reading 'replace')"%string) /\
    (title <> JNull -> msg = "s.replace is not a function"%string).
Proof.
  intros Hmd Htitle Hnot Hrender.
  assert (Hnull : value <> JNull) by (intros ->; discriminate).
  exists (err_message (replaceError title)). split.
  - unfold POST, POST_try, bind, lift, call, ret.
    destruct value; try congruence; cbn [destructure fst snd];
      rewrite Hmd, Htitle, Hrender; cbn [negb];
      destruct title; try reflexivity; exfalso; eapply Hnot; reflexivity.
  - split.
    + now intros ->.
    + destruct title; try reflexivity. congruence.
Qed.

Lemma title_not_a_string_witness :
  POST okEnv (Ok (JObject [("markdown", JString "# Hi"); ("title", JNull)]%string)) =
  (mkResponse 500 []
     (BodyText "PDF error: Cannot read properties of null (reading 'replace')"),
   [EvRender; EvConsoleError "Cannot read properties of null (reading 'replace')"]) /\
  POST okEnv (Ok (JObject [("markdown", JString "# Hi"); ("title", JNumber 7)]%string)) =
  (mkResponse 500 [] (BodyText "PDF error: s.replace is not a function"),
   [EvRender; EvConsoleError "s.replace is not a function"]).
Proof.
  split.
  - destruct (title_not_a_string okEnv
                (JObject [("markdown", JString "# Hi"); ("title", JNull)]%string)
                JNull "<h1>Hi</h1>"%string eq_refl eq_refl
                ltac:(discriminate) eq_refl) as (msg & Hrun & Hmsg & _).
    rewrite Hrun, (Hmsg eq_refl). reflexivity.
  - destruct (title_not_a_string okEnv
                (JObject [("markdown", JString "# Hi"); ("title", JNumber 7)]%string)
                (JNumber 7) "<h1>Hi</h1>"%string eq_refl eq_refl
                ltac:(discriminate) eq_refl) as (msg & Hrun & _ & Hmsg).
    rewrite Hrun, (Hmsg ltac:(discriminate)). reflexivity.
Defined.

(** X17.  Without a [title] the document is called "dossie": when every step
    succeeds the handler renders, finds the browser, starts it, opens a
    page, loads the page shell titled "dossie", switches to screen media,
    prints and closes the browser, in this order and once each, and
    answers with the attachment "dossie.pdf". *)
Theorem export_without_title env value body launcher pdf :
  truthy (getProp value "markdown") = true ->
  getProp value "title" = None ->
  md_render env (getProp value "markdown") = Ok body ->
  getBrowserLauncher env = Ok launcher ->
  puppeteer_launch env launcher = Ok tt ->
  browser_newPage env = Ok tt ->
  page_setContent env (pageHtml "dossie" body) = Ok tt ->
  page_emulateMediaType env "screen" = Ok tt ->
  page_pdf env (pageHtml "dossie" body) = Ok pdf ->
  browser_close env = Ok tt ->
  POST env (Ok value) =
  (mkResponse 200
     [("Content-Type", "application/pdf");
      ("Content-Disposition", "attachment; filename=" +++ dq +++ "dossie.pdf" +++ dq);
      ("Cache-Control", "no-store")]%string
     (BodyBlob "application/pdf" pdf),
   [EvRender; EvGetBrowserLauncher; EvLaunch launcher; EvNewPage;
    EvSetContent (pageHtml "dossie" body); EvEmulateMediaType "screen";
    EvPdf; EvClose]).
Proof.
  intros Hmd Htitle Hrender Hlauncher Hlaunch Hpage Hset Hmedia Hpdf Hclose.
  assert (Hnull : value <> JNull) by (intros ->; discriminate).
  unfold POST, POST_try, bind, lift, call, ret.
  destruct value; try congruence; cbn [destructure fst snd];
    rewrite Hmd, Htitle; cbn [negb escapeHtml];
    change (escapeHtmlString "dossie") with "dossie"%string;
    rewrite Hrender, Hlauncher, Hlaunch, Hpage, Hset, Hmedia, Hpdf, Hclose;
    reflexivity.
Qed.

Lemma export_without_title_witness :
  snd (POST okEnv (Ok (JObject [("markdown", JString "# Hi")]%string))) =
  [EvRender; EvGetBrowserLauncher; EvLaunch (mkLauncher "/usr/bin/chromium" []);
   EvNewPage; EvSetContent (pageHtml "dossie" "<h1>Hi</h1>");
   EvEmulateMediaType "screen"; EvPdf; EvClose].
Proof.
  rewrite (export_without_title okEnv
             (JObject [("markdown", JString "# Hi")]%string)
             "<h1>Hi</h1>"%string (mkLauncher "/usr/bin/chromium" []) [37; 80; 68; 70]
             eq_refl eq_refl eq_refl eq_refl eq_refl eq_refl eq_refl eq_refl
             eq_refl eq_refl).
  reflexivity.
Defined.

End ExtraPdf.

(** ** The browser of the PDF endpoint *)

Module ExtraLauncher.
Import Js PdfLauncher ExtraSpec.

(** One step of the case analysis of a run. *)
Ltac step_launch :=
  match goal with
  | |- context [match ?x with _ => _ end] =>
    lazymatch x with
    | context [match _ with _ => _ end] => fail
    | _ => destruct x eqn:?
    end
  | H : (_, _) = (_, _) |- _ => injection H as <- <-
  end.

(** X18.  A full package that is missing or broken is no failure: looking for
    it never throws, it gives a launcher only for an executable that
    exists, and whatever went wrong is warned about and nothing else. *)
Theorem resolveLocalPuppeteer_quiet sys :
  exists found trace,
    resolveLocalPuppeteer sys [] = (Ok found, trace) /\
    (forall launcher, found = Some launcher ->
       puppeteer launcher = Puppeteer /\ args launcher = [] /\
       puppeteer_executablePath sys = Ok (executablePath launcher) /\
       executablePath launcher <> EmptyString /\
       existsSync sys (executablePath launcher) = true) /\
    (forall msg, In (EvWarn msg) trace <->
       (exists e, import_puppeteer sys = Throw e /\ err_message e = msg) \/
       (exists u e, import_puppeteer sys = Ok u /\
                    puppeteer_executablePath sys = Throw e /\ err_message e = msg)).
Proof.
  unfold resolveLocalPuppeteer, tryCatch, bind, await, lift, ret.
  destruct (import_puppeteer sys) as [u|e] eqn:Eimport; cbn -[truthyString].
  - destruct (puppeteer_executablePath sys) as [p|e] eqn:Epath; cbn -[truthyString].
    + destruct (truthyString p && existsSync sys p) eqn:Eok; cbn.
      * eexists; eexists; split; [reflexivity|]. split.
        -- intros l [= <-]. apply andb_true_iff in Eok. destruct Eok as [Ht Hex].
           cbn. repeat split; trivial. intros ->. discriminate.
        -- intros msg. split; [intros [E|[]]; discriminate|].
           intros [(e & E & _)|(u' & e & _ & E & _)]; discriminate.
      * eexists; eexists; split; [reflexivity|]. split; [discriminate|].
        intros msg. split; [intros [E|[]]; discriminate|].
        intros [(e & E & _)|(u' & e & _ & E & _)]; discriminate.
    + eexists; eexists; split; [reflexivity|]. split; [discriminate|].
      intros msg. split.
      * intros [E|[[= <-]|[]]]; [discriminate|]. right. eauto.
      * intros [(e' & E & _)|(u' & e' & _ & [= <-] & <-)]; [discriminate|].
        right. now left.
  - eexists; eexists; split; [reflexivity|]. split; [discriminate|].
    intros msg. split.
    + intros [E|[[= <-]|[]]]; [discriminate|]. left. eauto.
    + intros [(e' & [= <-] & <-)|(u' & e' & E & _)]; [|discriminate].
      right. now left.
Qed.

Lemma resolveLocalPuppeteer_quiet_witness :
  resolveLocalPuppeteer server [] =
    (Ok None, [EvImport "puppeteer"; EvWarn "Cannot find package 'puppeteer'"]) /\
  exists found trace,
    resolveLocalPuppeteer laptop [] = (Ok found, trace) /\
    (forall launcher, found = Some launcher ->
       puppeteer launcher = Puppeteer /\ args launcher = [] /\
       puppeteer_executablePath laptop = Ok (executablePath launcher) /\
       executablePath launcher <> EmptyString /\
       existsSync laptop (executablePath launcher) = true) /\
    (forall msg, In (EvWarn msg) trace <->
       (exists e, import_puppeteer laptop = Throw e /\ err_message e = msg) \/
       (exists u e, import_puppeteer laptop = Ok u /\
                    puppeteer_executablePath laptop = Throw e /\ err_message e = msg)).
Proof.
  split; [reflexivity|]. exact (resolveLocalPuppeteer_quiet laptop).
Defined.

Lemma truthyString_spec s : truthyString s = true <-> s <> EmptyString.
Proof.
  unfold truthyString. rewrite negb_true_iff. apply String.eqb_neq.
Qed.

(** X19.  Whatever the machine, a launcher that [getBrowserLauncher] gives
    names an executable that exists: one that was there before the call,
    or, when the cloud build was loaded, one that is there once it has
    been unpacked. *)
Theorem launcher_executable_exists sys launcher trace :
  getBrowserLauncher sys [] = (Ok launcher, trace) ->
  executablePath launcher <> EmptyString /\
  (existsSync sys (executablePath launcher) = true \/
   In (EvImport "@sparticuz/chromium") trace /\
   existsSyncUnpacked sys (executablePath launcher) = true).
Proof.
  unfold getBrowserLauncher, cloudChromium, resolveLocalPuppeteer, tryCatch, when,
    bind, await, lift, ret, throw.
  repeat (step_launch; cbn -[truthyString] in * );
    intros [= <- <-]; cbn -[truthyString];
    repeat match goal with
           | H : _ && _ = true |- _ => apply andb_true_iff in H; destruct H
           | H : _ || _ = false |- _ => apply orb_false_iff in H; destruct H
           | H : negb _ = false |- _ => apply negb_false_iff in H
           | H : truthyString _ = true |- _ => apply truthyString_spec in H
           end;
    (split; [assumption|]);
    try (left; assumption);
    right; (split; [|assumption]); rewrite ?in_app_iff; simpl; tauto.
Qed.

Lemma launcher_executable_exists_witness :
  executablePath (mkBrowserLauncher PuppeteerCore "/tmp/chromium" ["--no-sandbox"]%string)
    <> EmptyString /\
  (existsSync lambda "/tmp/chromium" = true \/
   In (EvImport "@sparticuz/chromium")
      [EvImport "puppeteer"; EvWarn "Cannot find package 'puppeteer'";
       EvImport "@sparticuz/chromium"; EvSetHeadlessMode true;
       EvChromiumExecutablePath; EvImport "puppeteer-core"] /\
   existsSyncUnpacked lambda "/tmp/chromium" = true).
Proof.
  exact (launcher_executable_exists lambda
           (mkBrowserLauncher PuppeteerCore "/tmp/chromium" ["--no-sandbox"]%string)
           [EvImport "puppeteer"; EvWarn "Cannot find package 'puppeteer'";
            EvImport "@sparticuz/chromium"; EvSetHeadlessMode true;
            EvChromiumExecutablePath; EvImport "puppeteer-core"]
           eq_refl).
Defined.

(** X20.  The full package comes first: when it is installed and its browser
    exists, that browser is taken and nothing else is loaded or looked
    at, whatever the environment and the platform say. *)
Theorem local_puppeteer_first sys u path :
  import_puppeteer sys = Ok u ->
  puppeteer_executablePath sys = Ok path ->
  path <> EmptyString ->
  existsSync sys path = true ->
  getBrowserLauncher sys [] =
  (Ok (mkBrowserLauncher Puppeteer path []), [EvImport "puppeteer"]).
Proof.
  intros Himport Hpath Hne Hex.
  apply truthyString_spec in Hne.
  unfold getBrowserLauncher, resolveLocalPuppeteer, tryCatch, bind, await, lift, ret.
  rewrite Himport. cbn -[truthyString]. rewrite Hpath. cbn -[truthyString].
  now rewrite Hne, Hex.
Qed.

Lemma local_puppeteer_first_witness :
  getBrowserLauncher laptop [] =
  (Ok (mkBrowserLauncher Puppeteer "/cache/chrome" []), [EvImport "puppeteer"]).
Proof.
  apply (local_puppeteer_first laptop tt "/cache/chrome"%string); try reflexivity.
  discriminate.
Defined.

(** X21.  The configured path comes second: without a usable full package, a
    path in PUPPETEER_EXECUTABLE_PATH that exists is taken with
    "puppeteer-core", on any platform, and the cloud build is not
    loaded. *)
Theorem configured_path_second sys before path :
  resolveLocalPuppeteer sys [] = (Ok None, before) ->
  env sys "PUPPETEER_EXECUTABLE_PATH" = Some path ->
  path <> EmptyString ->
  existsSync sys path = true ->
  import_puppeteer_core sys = Ok tt ->
  getBrowserLauncher sys [] =
  (Ok (mkBrowserLauncher PuppeteerCore path []),
   before ++ [EvImport "puppeteer-core"]).
Proof.
  intros Hlocal Henv Hne Hex Hcore.
  apply truthyString_spec in Hne.
  unfold getBrowserLauncher, bind. rewrite Hlocal, Henv, Hne, Hex.
  unfold await, ret. cbn. now rewrite Hcore.
Qed.

Lemma configured_path_second_witness :
  getBrowserLauncher server [] =
  (Ok (mkBrowserLauncher PuppeteerCore "/usr/bin/chromium" []),
   [EvImport "puppeteer"; EvWarn "Cannot find package 'puppeteer'";
    EvImport "puppeteer-core"]).
Proof.
  apply (configured_path_second server
           [EvImport "puppeteer"; EvWarn "Cannot find package 'puppeteer'"]
           "/usr/bin/chromium"%string); try reflexivity.
  discriminate.
Defined.

(** X22.  Off the cloud nothing is downloaded: without a usable full package
    and without a usable configured path (none, an empty one, or one
    that does not exist), a machine that is not Linux, or that has none
    of VERCEL, AWS_REGION, AWS_EXECUTION_ENV and LAMBDA_TASK_ROOT set,
    gets the configuration error, and neither the cloud build nor
    "puppeteer-core" is loaded. *)
Theorem no_browser_off_cloud sys before :
  resolveLocalPuppeteer sys [] = (Ok None, before) ->
  (forall path, env sys "PUPPETEER_EXECUTABLE_PATH" = Some path ->
                path = EmptyString \/ existsSync sys path = false) ->
  (platform sys <> "linux"%string \/
   (envSet sys "VERCEL" = false /\ envSet sys "AWS_REGION" = false /\
    envSet sys "AWS_EXECUTION_ENV" = false /\ envSet sys "LAMBDA_TASK_ROOT" = false)) ->
  getBrowserLauncher sys [] = (Throw noBrowserFound, before).
Proof.
  intros Hlocal Henv Hcloud.
  assert (Hshould : shouldUseLambdaChromium sys = false).
  { unfold shouldUseLambdaChromium.
    destruct Hcloud as [Hp|(H1 & H2 & H3 & H4)].
    - apply String.eqb_neq in Hp. now rewrite Hp.
    - rewrite H1, H2, H3, H4. now destruct (negb _). }
  unfold getBrowserLauncher, bind. rewrite Hlocal.
  assert (Hend : cloudChromium sys before = (Throw noBrowserFound, before)).
  { unfold cloudChromium. now rewrite Hshould. }
  destruct (env sys "PUPPETEER_EXECUTABLE_PATH") as [path|]; [|exact Hend].
  destruct (Henv path eq_refl) as [->|Hex]; [exact Hend|].
  rewrite Hex, andb_false_r. exact Hend.
Qed.

Lemma no_browser_off_cloud_witness :
  getBrowserLauncher bare [] = (Throw noBrowserFound, [EvImport "puppeteer"]).
Proof.
  apply (no_browser_off_cloud bare [EvImport "puppeteer"]).
  - reflexivity.
  - intros path [= <-]. now left.
  - left. discriminate.
Defined.

(** X23.  On the cloud the build is loaded last: its setters are called, if it
    has them, before its executable is asked for, and the launcher has
    the unpacked executable and the arguments of the build. *)
Theorem cloud_build_last sys before chromium path :
  resolveLocalPuppeteer sys [] = (Ok None, before) ->
  (forall p, env sys "PUPPETEER_EXECUTABLE_PATH" = Some p ->
             p = EmptyString \/ existsSync sys p = false) ->
  shouldUseLambdaChromium sys = true ->
  import_chromium sys = Ok chromium ->
  chromium_executablePath chromium = Ok path ->
  path <> EmptyString ->
  existsSyncUnpacked sys path = true ->
  import_puppeteer_core sys = Ok tt ->
  getBrowserLauncher sys [] =
  (Ok (mkBrowserLauncher PuppeteerCore path (chromium_args chromium)),
   before ++ [EvImport "@sparticuz/chromium"] ++
   (if hasSetHeadlessMode chromium then [EvSetHeadlessMode true] else []) ++
   (if hasSetGraphicsMode chromium then [EvSetGraphicsMode false] else []) ++
   [EvChromiumExecutablePath; EvImport "puppeteer-core"]).
Proof.
  intros Hlocal Henv Hshould Himport Hpath Hne Hex Hcore.
  apply truthyString_spec in Hne.
  assert (Hend : cloudChromium sys before =
                 (Ok (mkBrowserLauncher PuppeteerCore path (chromium_args chromium)),
                  before ++ [EvImport "@sparticuz/chromium"] ++
                  (if hasSetHeadlessMode chromium then [EvSetHeadlessMode true] else []) ++
                  (if hasSetGraphicsMode chromium then [EvSetGraphicsMode false] else []) ++
                  [EvChromiumExecutablePath; EvImport "puppeteer-core"])).
  { unfold cloudChromium, when, bind, await, ret, throw.
    rewrite Hshould, Himport. cbn -[truthyString].
    destruct (hasSetHeadlessMode chromium), (hasSetGraphicsMode chromium);
      cbn -[truthyString]; rewrite Hpath, Hne, Hex; cbn; rewrite Hcore;
      now rewrite <- ?app_assoc. }
  unfold getBrowserLauncher, bind. rewrite Hlocal.
  destruct (env sys "PUPPETEER_EXECUTABLE_PATH") as [p|]; [|exact Hend].
  destruct (Henv p eq_refl) as [->|Hno]; [exact Hend|].
  rewrite Hno, andb_false_r. exact Hend.
Qed.

Lemma cloud_build_last_witness :
  getBrowserLauncher lambda [] =
  (Ok (mkBrowserLauncher PuppeteerCore "/tmp/chromium" ["--no-sandbox"]%string),
   [EvImport "puppeteer"; EvWarn "Cannot find package 'puppeteer'";
    EvImport "@sparticuz/chromium"; EvSetHeadlessMode true;
    EvChromiumExecutablePath; EvImport "puppeteer-core"]).
Proof.
  apply (cloud_build_last lambda
           [EvImport "puppeteer"; EvWarn "Cannot find package 'puppeteer'"]
           (mkChromium true false (Ok "/tmp/chromium"%string) ["--no-sandbox"]%string)
           "/tmp/chromium"%string); try reflexivity.
  - intros p [=].
  - discriminate.
Defined.

End ExtraLauncher.
